(** * youtube-caption-extractor: a shallow embedding of [src/index.ts]

    The two exported operations, [getVideoDetails] and [getSubtitles],
    scrape a watch page, pick a caption track and turn the fetched
    timed-text document into subtitle lines.  The embedding keeps the
    shape of the source:

    - JavaScript strings are sequences of UTF-16 code units;
    - the regular expressions of the source are terms of a small pattern
      language, run by a backtracking matcher with JavaScript's
      priorities (leftmost match, alternatives in order, greedy and lazy
      repetition);
    - what [JSON.parse] returns is a tree of run-time values, on which
      property reads, truthiness and strict equality work as in
      JavaScript;
    - an exception is an explicit result, and [await] is sequencing in
      the monad of results;
    - the network ([fetch], [node-fetch] behind a proxy agent) and the two
      text libraries ([he], [striptags]) are collaborators the operations
      are parametrised by;
    - [console.warn] and [console.error] leave no trace in the results and
      are left out.

    The source writes the caption stage twice, once in each operation;
    so does the embedding, and that the two copies agree is a theorem. *)

From Stdlib Require Import String Ascii.
From Stdlib Require Import List NArith ZArith Bool Lia.
Import ListNotations.

Set Implicit Arguments.
Set Warnings "-register-all".

Open Scope N_scope.

(** ** JavaScript strings *)

Definition code_unit := N.
Definition jsstring := list code_unit.

(** String literals, for ASCII text.  A grave accent in the literal
    stands for the double quote (code unit 34); every other character
    stands for itself. *)
Definition lit_unit (a : ascii) : code_unit :=
  let n := N_of_ascii a in if N.eqb n 96 then 34 else n.

Definition lit (s : string) : jsstring := map lit_unit (list_ascii_of_string s).

Fixpoint jseqb (a b : jsstring) : bool :=
  match a, b with
  | [], [] => true
  | x :: a', y :: b' => N.eqb x y && jseqb a' b'
  | _, _ => false
  end.

Fixpoint starts_with (p s : jsstring) : bool :=
  match p, s with
  | [], _ => true
  | x :: p', y :: s' => N.eqb x y && starts_with p' s'
  | _ :: _, [] => false
  end.

(** [String.prototype.includes] *)
Fixpoint includes (s sub : jsstring) : bool :=
  starts_with sub s ||
  match s with
  | [] => false
  | _ :: s' => includes s' sub
  end.

(** [String.prototype.replace] with a string pattern: the first occurrence
    only.  The replacement texts of the source hold no dollar sign, so they
    are inserted as they are. *)
Fixpoint replace_string (s pat repl : jsstring) : jsstring :=
  if starts_with pat s then repl ++ skipn (length pat) s
  else match s with
       | [] => []
       | x :: s' => x :: replace_string s' pat repl
       end.

(** [String.prototype.split] with a string separator.  [skip] counts the
    code units of a separator still to be passed over, [cur] is the piece
    being collected, in reverse. *)
Fixpoint split_from (sep s : jsstring) (skip : nat) (cur : jsstring) : list jsstring :=
  match s with
  | [] => [rev cur]
  | x :: s' =>
      match skip with
      | S n => split_from sep s' n cur
      | O => if starts_with sep s
             then rev cur :: split_from sep s' (length sep - 1)%nat []
             else split_from sep s' 0%nat (x :: cur)
      end
  end.

Definition split (s sep : jsstring) : list jsstring :=
  match sep with
  | [] => map (fun x => [x]) s
  | _ => split_from sep s 0%nat []
  end.

(** WhiteSpace and LineTerminator code units, as [String.prototype.trim]
    removes them. *)
Definition is_line_terminator (x : code_unit) : bool :=
  N.eqb x 10 || N.eqb x 13 || N.eqb x 8232 || N.eqb x 8233.

Definition is_white_space (x : code_unit) : bool :=
  N.eqb x 9 || N.eqb x 11 || N.eqb x 12 || N.eqb x 32 || N.eqb x 160
  || N.eqb x 5760 || (N.leb 8192 x && N.leb x 8202)
  || N.eqb x 8239 || N.eqb x 8287 || N.eqb x 12288 || N.eqb x 65279
  || is_line_terminator x.

Fixpoint trim_start (s : jsstring) : jsstring :=
  match s with
  | x :: s' => if is_white_space x then trim_start s' else s
  | [] => []
  end.

Definition trim (s : jsstring) : jsstring := rev (trim_start (rev (trim_start s))).

(** ** Results of computations that may throw *)

Inductive exn : Type :=
| Error (message : jsstring)   (* [new Error(message)] *)
| SyntaxError                  (* [JSON.parse], [new RegExp] *)
| TypeError                    (* property of null, call of a non-function *)
| Rejected (reason : jsstring) (* a collaborator's promise rejected *)
| OutsideFragment.             (* input the embedding does not interpret *)

Inductive result (A : Type) : Type :=
| Ok (a : A)
| Throw (e : exn).

Arguments Ok {A} a.
Arguments Throw {A} e.

Definition bind {A B} (m : result A) (f : A -> result B) : result B :=
  match m with
  | Ok a => f a
  | Throw e => Throw e
  end.

Notation "x <- m ;; k" := (bind m (fun x => k))
  (at level 61, m at next level, right associativity).

(** ** Regular expressions

    The fragment of the pattern language the source uses: classes of one
    code unit, sequence, ordered alternation, greedy and lazy repetition
    of a class, one capturing group and the end-of-input assertion. *)

Inductive regex : Type :=
| Empty
| Class (p : code_unit -> bool)
| Seq (r1 r2 : regex)
| Alt (r1 r2 : regex)
| Star (p : code_unit -> bool)
| LazyStar (p : code_unit -> bool)
| Group (r : regex)
| EndOfInput.

Definition only (c : code_unit) : code_unit -> bool := fun x => N.eqb x c.
Definition except (c : code_unit) : code_unit -> bool := fun x => negb (N.eqb x c).
(** [.] without the [s] flag *)
Definition dot : code_unit -> bool := fun x => negb (is_line_terminator x).
(** [\d] *)
Definition digit : code_unit -> bool := fun x => N.leb 48 x && N.leb x 57.
(** a letter under the [i] flag: both ASCII cases of [c] (given in lower
    case); without the [u] flag no code unit above 127 folds onto ASCII *)
Definition fold_case (c : code_unit) : code_unit -> bool :=
  fun x => N.eqb x c || N.eqb x (c - 32).

Definition Plus (p : code_unit -> bool) : regex := Seq (Class p) (Star p).
Definition Opt (r : regex) : regex := Alt r Empty.

Fixpoint chars (s : jsstring) : regex :=
  match s with
  | [] => Empty
  | x :: s' => Seq (Class (only x)) (chars s')
  end.

(** The text a match took: [s] without its tail [s']. *)
Definition consumed (s s' : jsstring) : jsstring :=
  firstn (length s - length s')%nat s.

Section Matcher.
Variable A : Type.

(** greedy: as many as possible first, giving back one at a time *)
Fixpoint star_greedy (p : code_unit -> bool) (s : jsstring)
         (k : jsstring -> option A) : option A :=
  match s with
  | x :: s' =>
      if p x
      then match star_greedy p s' k with
           | Some a => Some a
           | None => k s
           end
      else k s
  | [] => k s
  end.

(** lazy: as few as possible first, taking one more at a time *)
Fixpoint star_lazy (p : code_unit -> bool) (s : jsstring)
         (k : jsstring -> option A) : option A :=
  match k s with
  | Some a => Some a
  | None =>
      match s with
      | x :: s' => if p x then star_lazy p s' k else None
      | [] => None
      end
  end.

(** [run r s c k]: match [r] at the start of [s] with capture [c], then
    continue with [k] on what is left; [None] makes the matcher try its
    next choice. *)
Fixpoint run (r : regex) (s : jsstring) (c : option jsstring)
         (k : jsstring -> option jsstring -> option A) : option A :=
  match r with
  | Empty => k s c
  | Class p =>
      match s with
      | x :: s' => if p x then k s' c else None
      | [] => None
      end
  | Seq r1 r2 => run r1 s c (fun s' c' => run r2 s' c' k)
  | Alt r1 r2 =>
      match run r1 s c k with
      | Some a => Some a
      | None => run r2 s c k
      end
  | Star p => star_greedy p s (fun s' => k s' c)
  | LazyStar p => star_lazy p s (fun s' => k s' c)
  | Group r1 => run r1 s c (fun s' _ => k s' (Some (consumed s s')))
  | EndOfInput =>
      match s with
      | [] => k s c
      | _ :: _ => None
      end
  end.
End Matcher.

(** The match array of [exec]: the text before the match, the match itself
    (element 0), group 1 ([None] when the group took no part) and the text
    after the match. *)
Record match_array : Type := {
  before : jsstring;
  whole : jsstring;
  group1 : option jsstring;
  after : jsstring
}.

Definition match_here (r : regex) (s : jsstring) : option (jsstring * option jsstring) :=
  run r s None (fun s' c => Some (s', c)).

(** [RegExp.prototype.exec] of a pattern without the [g] and [y] flags:
    the leftmost position at which the pattern matches. *)
Fixpoint exec_from (r : regex) (pre s : jsstring) : option match_array :=
  match match_here r s with
  | Some (s', c) =>
      Some {| before := rev pre; whole := consumed s s';
              group1 := c; after := s' |}
  | None =>
      match s with
      | [] => None
      | x :: s' => exec_from r (x :: pre) s'
      end
  end.

Definition exec (r : regex) (s : jsstring) : option match_array := exec_from r [] s.

(** [String.prototype.replace] with a pattern without the [g] flag *)
Definition replace_first (s : jsstring) (r : regex) (repl : jsstring) : jsstring :=
  match exec r s with
  | Some m => before m ++ repl ++ after m
  | None => s
  end.

(** [String.prototype.replace] with a pattern with the [g] flag: every
    match, left to right, the search resuming where the last match ended
    (one code unit further after an empty match). *)
Fixpoint replace_global (r : regex) (repl s : jsstring) (skip : nat) {struct s} : jsstring :=
  match skip with
  | S n =>
      match s with
      | [] => []
      | _ :: s' => replace_global r repl s' n
      end
  | O =>
      match match_here r s with
      | Some (rest, _) =>
          repl ++
          match s with
          | [] => []
          | x :: s' =>
              match (length s - length rest)%nat with
              | O => x :: replace_global r repl s' 0%nat
              | S n => replace_global r repl s' n
              end
          end
      | None =>
          match s with
          | [] => []
          | x :: s' => x :: replace_global r repl s' 0%nat
          end
      end
  end.

Definition replace_all (s : jsstring) (r : regex) (repl : jsstring) : jsstring :=
  replace_global r repl s 0%nat.

(** ** Run-time values

    What [JSON.parse] can return, and [undefined].  A number literal is
    kept as the exact decimal [m * 10^e] it denotes. *)

Inductive value : Type :=
| Undefined
| Null
| Bool (b : bool)
| Num (m e : Z)
| Str (s : jsstring)
| Arr (items : list value)
| Obj (props : list (jsstring * value)).

(** The decimal [m * 10^e] rounds to the Number zero: it is zero, or lies
    at or below half the least positive double, 2^-1075 (ties go to even). *)
Definition rounds_to_zero (m e : Z) : bool :=
  (m =? 0)%Z || ((e <? 0)%Z && (Z.abs m * 2 ^ 1075 <=? 10 ^ (- e))%Z).

(** ToBoolean *)
Definition truthy (v : value) : bool :=
  match v with
  | Undefined | Null => false
  | Bool b => b
  | Num m e => negb (rounds_to_zero m e)
  | Str s => match s with [] => false | _ :: _ => true end
  | Arr _ | Obj _ => true
  end.

(** An object keeps its properties in source order; of two properties
    with one name the later one stands. *)
Fixpoint lookup (key : jsstring) (props : list (jsstring * value)) : option value :=
  match props with
  | [] => None
  | (k, v) :: rest =>
      match lookup key rest with
      | Some later => Some later
      | None => if jseqb k key then Some v else None
      end
  end.

(** Property read [v.key], for the two names the source reads ([vssId],
    [baseUrl]), which no built-in prototype defines. *)
Definition get (v : value) (key : jsstring) : result value :=
  match v with
  | Undefined | Null => Throw TypeError
  | Obj props => Ok (match lookup key props with Some x => x | None => Undefined end)
  | Bool _ | Num _ _ | Str _ | Arr _ => Ok Undefined
  end.

(** [v === s] for a string [s] *)
Definition strict_equals_string (v : value) (s : jsstring) : bool :=
  match v with
  | Str t => jseqb t s
  | _ => false
  end.

(** [Array.prototype.find]: the first element whose test is truthy,
    [undefined] when there is none; a test that throws ends the search. *)
Fixpoint find (test : value -> result bool) (l : list value) : result value :=
  match l with
  | [] => Ok Undefined
  | x :: l' => b <- test x ;; if b then Ok x else find test l'
  end.

(** ** [JSON.parse] *)

Definition is_json_space (x : code_unit) : bool :=
  N.eqb x 32 || N.eqb x 9 || N.eqb x 10 || N.eqb x 13.

Fixpoint skip_ws (s : jsstring) : jsstring :=
  match s with
  | x :: s' => if is_json_space x then skip_ws s' else s
  | [] => []
  end.

Definition hex_value (x : code_unit) : option N :=
  if digit x then Some (x - 48)
  else if N.leb 97 x && N.leb x 102 then Some (x - 87)
  else if N.leb 65 x && N.leb x 70 then Some (x - 55)
  else None.

Definition hex4 (a b c d : code_unit) : option code_unit :=
  match hex_value a, hex_value b, hex_value c, hex_value d with
  | Some a', Some b', Some c', Some d' => Some (((a' * 16 + b') * 16 + c') * 16 + d')
  | _, _, _, _ => None
  end.

(** The code unit an escape letter stands for *)
Definition unescape (e : code_unit) : option code_unit :=
  if N.eqb e 34 || N.eqb e 92 || N.eqb e 47 then Some e
  else if N.eqb e 98 then Some 8
  else if N.eqb e 102 then Some 12
  else if N.eqb e 110 then Some 10
  else if N.eqb e 114 then Some 13
  else if N.eqb e 116 then Some 9
  else None.

(** The characters of a string literal after its opening quote, up to and
    including the closing one; [acc] is the text so far, in reverse. *)
Fixpoint parse_string_body (s acc : jsstring) : option (jsstring * jsstring) :=
  match s with
  | [] => None
  | x :: s1 =>
      if N.eqb x 34 then Some (rev acc, s1)
      else if N.eqb x 92 then
        match s1 with
        | [] => None
        | e :: s2 =>
            if N.eqb e 117 then
              match s2 with
              | a :: b :: c :: d :: s3 =>
                  match hex4 a b c d with
                  | Some y => parse_string_body s3 (y :: acc)
                  | None => None
                  end
              | _ => None
              end
            else
              match unescape e with
              | Some y => parse_string_body s2 (y :: acc)
              | None => None
              end
        end
      else if N.ltb x 32 then None
      else parse_string_body s1 (x :: acc)
  end.

Fixpoint take_digits (s : jsstring) : jsstring * jsstring :=
  match s with
  | x :: s' => if digit x then let (ds, r) := take_digits s' in (x :: ds, r) else ([], s)
  | [] => ([], [])
  end.

Definition decimal (ds : jsstring) : Z :=
  fold_left (fun n d => (10 * n + Z.of_N (d - 48))%Z) ds 0%Z.

(** [s] starts with the code unit [c] *)
Definition head_is (c : code_unit) (s : jsstring) : bool :=
  match s with
  | x :: _ => N.eqb x c
  | [] => false
  end.

(** A number literal: sign, integer part without a leading zero, fraction,
    exponent. *)
Definition parse_number (s : jsstring) : option (value * jsstring) :=
  let negative := head_is 45 s in
  let s1 := if negative then tl s else s in
  let (int, s2) := if head_is 48 s1 then ([48], tl s1) else take_digits s1 in
  match int with
  | [] => None
  | _ :: _ =>
      let fraction := if head_is 46 s2
                      then match take_digits (tl s2) with
                           | ([], _) => None
                           | (fs, r) => Some (fs, r)
                           end
                      else Some ([], s2) in
      match fraction with
      | None => None
      | Some (fs, s3) =>
          let exponent :=
            if head_is 101 s3 || head_is 69 s3
            then let minus := head_is 45 (tl s3) in
                 let r1 := if minus || head_is 43 (tl s3) then tl (tl s3) else tl s3 in
                 match take_digits r1 with
                 | ([], _) => None
                 | (es, r2) => Some (if minus then (- decimal es)%Z else decimal es, r2)
                 end
            else Some (0%Z, s3) in
          match exponent with
          | None => None
          | Some (ex, s4) =>
              let m := decimal (int ++ fs) in
              Some (Num (if negative then (- m)%Z else m) (ex - Z.of_nat (length fs))%Z, s4)
          end
      end
  end.

Inductive parsed : Type :=
| Parsed (v : value) (rest : jsstring)
| Malformed
| NoFuel.

(** Recursive descent over the JSON grammar.  Every call spends one unit
    of [fuel]; [JSON_parse] starts with more than the text can use. *)
Fixpoint parse_value (fuel : nat) (s : jsstring) : parsed :=
  match fuel with
  | O => NoFuel
  | S f =>
      match skip_ws s with
      | [] => Malformed
      | x :: r =>
          if N.eqb x 91 then
            if head_is 93 (skip_ws r) then Parsed (Arr []) (tl (skip_ws r))
            else parse_elements f r []
          else if N.eqb x 123 then
            if head_is 125 (skip_ws r) then Parsed (Obj []) (tl (skip_ws r))
            else parse_members f r []
          else if N.eqb x 34 then
            match parse_string_body r [] with
            | Some (t, r') => Parsed (Str t) r'
            | None => Malformed
            end
          else if starts_with (lit "true") (x :: r) then Parsed (Bool true) (skipn 4 (x :: r))
          else if starts_with (lit "false") (x :: r) then Parsed (Bool false) (skipn 5 (x :: r))
          else if starts_with (lit "null") (x :: r) then Parsed Null (skipn 4 (x :: r))
          else match parse_number (x :: r) with
               | Some (v, r') => Parsed v r'
               | None => Malformed
               end
      end
  end
with parse_elements (fuel : nat) (s : jsstring) (acc : list value) : parsed :=
  match fuel with
  | O => NoFuel
  | S f =>
      match parse_value f s with
      | Parsed v r =>
          if head_is 44 (skip_ws r) then parse_elements f (tl (skip_ws r)) (v :: acc)
          else if head_is 93 (skip_ws r) then Parsed (Arr (rev (v :: acc))) (tl (skip_ws r))
          else Malformed
      | other => other
      end
  end
with parse_members (fuel : nat) (s : jsstring) (acc : list (jsstring * value)) : parsed :=
  match fuel with
  | O => NoFuel
  | S f =>
      if head_is 34 (skip_ws s) then
        match parse_string_body (tl (skip_ws s)) [] with
        | Some (key, r1) =>
            if head_is 58 (skip_ws r1) then
              match parse_value f (tl (skip_ws r1)) with
              | Parsed v r3 =>
                  if head_is 44 (skip_ws r3)
                  then parse_members f (tl (skip_ws r3)) ((key, v) :: acc)
                  else if head_is 125 (skip_ws r3)
                  then Parsed (Obj (rev ((key, v) :: acc))) (tl (skip_ws r3))
                  else Malformed
              | other => other
              end
            else Malformed
        | None => Malformed
        end
      else Malformed
  end.

Definition JSON_parse (text : jsstring) : result value :=
  match parse_value (2 * length text + 1) text with
  | Parsed v rest =>
      match skip_ws rest with
      | [] => Ok v
      | _ :: _ => Throw SyntaxError
      end
  | Malformed => Throw SyntaxError
  | NoFuel => Throw OutsideFragment
  end.

(** ** [new RegExp(pattern)] from a pattern string

    [String.prototype.match] with a string argument compiles the string
    as a pattern.  Interpreted here: patterns made of the wildcard [.] and
    of characters that carry no pattern syntax, which covers the dot
    followed by a language code of letters, digits and hyphens.  For a
    pattern string with a syntax character the result is
    [OutsideFragment]: the embedding does not say what the source does
    with it. *)

Definition is_syntax_character (x : code_unit) : bool :=
  existsb (N.eqb x) (lit "\^$*+?()[]{}|").

Fixpoint pattern (source : jsstring) : regex :=
  match source with
  | [] => Empty
  | x :: rest => Seq (Class (if N.eqb x 46 then dot else only x)) (pattern rest)
  end.

Definition RegExp (source : jsstring) : result regex :=
  if existsb is_syntax_character source then Throw OutsideFragment
  else Ok (pattern source).

(** [v.match(source)]: only a string has a [match] method *)
Definition call_match (v : value) (source : jsstring) : result (option match_array) :=
  match v with
  | Undefined | Null => Throw TypeError
  | Str s => r <- RegExp source ;; Ok (exec r s)
  | Bool _ | Num _ _ | Arr _ | Obj _ => Throw TypeError
  end.

(** ** The data of [index.ts] *)

Record Subtitle : Type := {
  start : value;
  dur : value;
  text : jsstring
}.

Record Options : Type := {
  videoID : jsstring;
  lang : option jsstring;
  proxyURL : option jsstring
}.

Record VideoDetails : Type := {
  title : value;
  description : value;
  subtitles : list Subtitle
}.

(** A fetched response: its [ok] flag and what [text()] resolves to. *)
Record Response : Type := {
  ok : bool;
  body : result jsstring
}.

(** Element 1 of a match array *)
Definition capture (m : match_array) : value :=
  match group1 m with
  | Some s => Str s
  | None => Undefined
  end.

(** [m && m[1]] for the result [m] of [String.prototype.match] *)
Definition and_capture (m : option match_array) : value :=
  match m with
  | None => Null
  | Some a => capture a
  end.

Definition string_truthy (s : option jsstring) : bool :=
  match s with
  | Some (_ :: _) => true
  | _ => false
  end.

Definition string_or_empty (s : option jsstring) : jsstring :=
  match s with
  | Some t => t
  | None => []
  end.

(** [JSON.parse(v)]: the argument is the text to parse when it is a
    string; [undefined] reads as a text that is no JSON. *)
Definition JSON_parse_value (v : value) : result value :=
  match v with
  | Str s => JSON_parse s
  | _ => Throw SyntaxError
  end.

Section Pipeline.
(** The collaborators: the global [fetch], [node-fetch] behind an
    [HttpsProxyAgent], [he.decode] and [striptags]. *)
Variable Agent : Type.
Variable HttpsProxyAgent : jsstring -> result Agent.
Variable NodeFetch : jsstring -> Agent -> result Response.
Variable fetch : value -> result Response.
Variable he_decode : jsstring -> jsstring.
Variable striptags : jsstring -> jsstring.

Definition fetchThroughProxy (targetUrl proxyUrl : jsstring) : result Response :=
  proxyAgent <- HttpsProxyAgent proxyUrl ;;
  let failure :=
    Error (lit "Failed to fetch " ++ targetUrl ++ lit " through proxy " ++ proxyUrl) in
  match NodeFetch targetUrl proxyAgent with
  | Ok response => if ok response then Ok response else Throw failure
  | Throw _ => Throw failure
  end.

(** *** [getVideoDetails] *)

(** The title pattern: the text [<meta name=`title` content=`], group 1,
    the text [`>].  Group 1 is the alternation of [[^`]*] and
    [[^`]*[^&]quot;[^`]*], in this order. *)
Definition getVideoDetails_titleRegex : regex :=
  Seq (chars (lit "<meta name=`title` content=`"))
    (Seq (Group (Alt (Star (except 34))
                     (Seq (Star (except 34))
                          (Seq (Class (except 38))
                               (Seq (chars (lit "quot;")) (Star (except 34)))))))
         (chars (lit "`>"))).

(** The description pattern: the same with [description] for [title]. *)
Definition getVideoDetails_descriptionRegex : regex :=
  Seq (chars (lit "<meta name=`description` content=`"))
    (Seq (Group (Alt (Star (except 34))
                     (Seq (Star (except 34))
                          (Seq (Class (except 38))
                               (Seq (chars (lit "quot;")) (Star (except 34)))))))
         (chars (lit "`>"))).

(** The track-list pattern: the text [`captionTracks`:], then group 1, an
    opening bracket, as few units other than line terminators as possible
    and a closing bracket. *)
Definition getVideoDetails_regex : regex :=
  Seq (chars (lit "`captionTracks`:"))
      (Group (Seq (Class (only 91)) (Seq (LazyStar dot) (Class (only 93))))).

(** The expression bound to [subtitle]: three [find]s joined by [||]. *)
Definition getVideoDetails_subtitle (captionTracks : list value) (lang : jsstring)
  : result value :=
  manual <- find (fun track =>
                    vssId <- get track (lit "vssId") ;;
                    Ok (strict_equals_string vssId (lit "." ++ lang)))
                 captionTracks ;;
  if truthy manual then Ok manual else
  generated <- find (fun track =>
                       vssId <- get track (lit "vssId") ;;
                       Ok (strict_equals_string vssId (lit "a." ++ lang)))
                    captionTracks ;;
  if truthy generated then Ok generated else
  find (fun track =>
          vssId <- get track (lit "vssId") ;;
          if truthy vssId
          then m <- call_match vssId (lit "." ++ lang) ;;
               Ok (match m with Some _ => true | None => false end)
          else Ok false)
       captionTracks.

(** The attribute patterns: [start=`] or [dur=`], group 1 of one or more
    digits and full stops, a double quote. *)
Definition getVideoDetails_startRegex : regex :=
  Seq (chars (lit "start=`"))
      (Seq (Group (Plus (fun x => digit x || N.eqb x 46))) (Class (only 34))).

Definition getVideoDetails_durRegex : regex :=
  Seq (chars (lit "dur=`"))
      (Seq (Group (Plus (fun x => digit x || N.eqb x 46))) (Class (only 34))).

(** The expression bound to [lines].  The three patterns of the text
    clean-up are, in order: [<text.+>], replaced once; [&amp;] with the
    flags [g] and [i]; [<\/?[^>]+] followed by the group of [>] or the end
    of input, with the flag [g]. *)
Definition getVideoDetails_lines (transcript : jsstring) : list Subtitle :=
  fold_left
    (fun (acc : list Subtitle) (line : jsstring) =>
       let startResult := exec getVideoDetails_startRegex line in
       let durResult := exec getVideoDetails_durRegex line in
       match startResult, durResult with
       | Some startResult, Some durResult =>
           let start := capture startResult in
           let dur := capture durResult in
           let htmlText :=
             replace_all
               (replace_all
                  (replace_first line
                     (Seq (chars (lit "<text")) (Seq (Plus dot) (Class (only 62))))
                     [])
                  (Seq (Class (only 38))
                       (Seq (Class (fold_case 97))
                            (Seq (Class (fold_case 109))
                                 (Seq (Class (fold_case 112)) (Class (only 59))))))
                  (lit "&"))
               (Seq (Class (only 60))
                    (Seq (Opt (Class (only 47)))
                         (Seq (Plus (except 62))
                              (Group (Alt (Class (only 62)) EndOfInput)))))
               [] in
           let decodedText := he_decode htmlText in
           let text := striptags decodedText in
           acc ++ [{| start := start; dur := dur; text := text |}]
       | _, _ => acc
       end)
    (filter (fun line => match line with
                         | [] => false
                         | _ :: _ => match trim line with [] => false | _ :: _ => true end
                         end)
       (split
          (replace_string
             (replace_string transcript
                (lit "<?xml version=`1.0` encoding=`utf-8` ?><transcript>") [])
             (lit "</transcript>") [])
          (lit "</text>")))
    [].

Definition getVideoDetails (options : Options) : result VideoDetails :=
  let videoID := videoID options in
  let lang := match lang options with Some l => l | None => lit "en" end in
  let proxyURL := proxyURL options in
  let youtubeUrl := lit "https://youtube.com/watch?v=" ++ videoID in
  response <- (if string_truthy proxyURL
               then fetchThroughProxy youtubeUrl (string_or_empty proxyURL)
               else fetch (Str youtubeUrl)) ;;
  data <- body response ;;
  let titleMatch := exec getVideoDetails_titleRegex data in
  let descriptionMatch := exec getVideoDetails_descriptionRegex data in
  let title := and_capture titleMatch in
  let description :=
    if truthy (and_capture descriptionMatch) then and_capture descriptionMatch
    else Str (lit "No description found") in
  if negb (truthy title) then Throw (Error (lit "No video found for: " ++ videoID)) else
  if negb (includes data (lit "captionTracks"))
  then Ok {| title := title; description := description; subtitles := [] |} else
  match exec getVideoDetails_regex data with
  | None => Ok {| title := title; description := description; subtitles := [] |}
  | Some regexResult =>
      let captionTracksJson := capture regexResult in
      captionTracks <- JSON_parse_value captionTracksJson ;;
      subtitle <- (match captionTracks with
                   | Arr tracks => getVideoDetails_subtitle tracks lang
                   | _ => Throw TypeError
                   end) ;;
      baseUrl <- (match subtitle with
                  | Undefined | Null => Ok Undefined
                  | _ => get subtitle (lit "baseUrl")
                  end) ;;
      if negb (truthy baseUrl)
      then Ok {| title := title; description := description; subtitles := [] |} else
      subtitlesResponse <- fetch baseUrl ;;
      transcript <- body subtitlesResponse ;;
      let lines := getVideoDetails_lines transcript in
      Ok {| title := title; description := description; subtitles := lines |}
  end.

(** *** [getSubtitles] *)

(** The same definitions again, from the text of [getSubtitles]. *)
Definition getSubtitles_regex : regex :=
  Seq (chars (lit "`captionTracks`:"))
      (Group (Seq (Class (only 91)) (Seq (LazyStar dot) (Class (only 93))))).

Definition getSubtitles_subtitle (captionTracks : list value) (lang : jsstring)
  : result value :=
  manual <- find (fun track =>
                    vssId <- get track (lit "vssId") ;;
                    Ok (strict_equals_string vssId (lit "." ++ lang)))
                 captionTracks ;;
  if truthy manual then Ok manual else
  generated <- find (fun track =>
                       vssId <- get track (lit "vssId") ;;
                       Ok (strict_equals_string vssId (lit "a." ++ lang)))
                    captionTracks ;;
  if truthy generated then Ok generated else
  find (fun track =>
          vssId <- get track (lit "vssId") ;;
          if truthy vssId
          then m <- call_match vssId (lit "." ++ lang) ;;
               Ok (match m with Some _ => true | None => false end)
          else Ok false)
       captionTracks.

Definition getSubtitles_startRegex : regex :=
  Seq (chars (lit "start=`"))
      (Seq (Group (Plus (fun x => digit x || N.eqb x 46))) (Class (only 34))).

Definition getSubtitles_durRegex : regex :=
  Seq (chars (lit "dur=`"))
      (Seq (Group (Plus (fun x => digit x || N.eqb x 46))) (Class (only 34))).

Definition getSubtitles_lines (transcript : jsstring) : list Subtitle :=
  fold_left
    (fun (acc : list Subtitle) (line : jsstring) =>
       let startResult := exec getSubtitles_startRegex line in
       let durResult := exec getSubtitles_durRegex line in
       match startResult, durResult with
       | Some startResult, Some durResult =>
           let start := capture startResult in
           let dur := capture durResult in
           let htmlText :=
             replace_all
               (replace_all
                  (replace_first line
                     (Seq (chars (lit "<text")) (Seq (Plus dot) (Class (only 62))))
                     [])
                  (Seq (Class (only 38))
                       (Seq (Class (fold_case 97))
                            (Seq (Class (fold_case 109))
                                 (Seq (Class (fold_case 112)) (Class (only 59))))))
                  (lit "&"))
               (Seq (Class (only 60))
                    (Seq (Opt (Class (only 47)))
                         (Seq (Plus (except 62))
                              (Group (Alt (Class (only 62)) EndOfInput)))))
               [] in
           let decodedText := he_decode htmlText in
           let text := striptags decodedText in
           acc ++ [{| start := start; dur := dur; text := text |}]
       | _, _ => acc
       end)
    (filter (fun line => match line with
                         | [] => false
                         | _ :: _ => match trim line with [] => false | _ :: _ => true end
                         end)
       (split
          (replace_string
             (replace_string transcript
                (lit "<?xml version=`1.0` encoding=`utf-8` ?><transcript>") [])
             (lit "</transcript>") [])
          (lit "</text>")))
    [].

Definition getSubtitles (options : Options) : result (list Subtitle) :=
  let videoID := videoID options in
  let lang := match lang options with Some l => l | None => lit "en" end in
  let proxyURL := proxyURL options in
  let youtubeUrl := lit "https://youtube.com/watch?v=" ++ videoID in
  response <- (if string_truthy proxyURL
               then fetchThroughProxy youtubeUrl (string_or_empty proxyURL)
               else fetch (Str youtubeUrl)) ;;
  data <- body response ;;
  if negb (includes data (lit "captionTracks")) then Ok [] else
  match exec getSubtitles_regex data with
  | None => Ok []
  | Some regexResult =>
      let captionTracksJson := capture regexResult in
      captionTracks <- JSON_parse_value captionTracksJson ;;
      subtitle <- (match captionTracks with
                   | Arr tracks => getSubtitles_subtitle tracks lang
                   | _ => Throw TypeError
                   end) ;;
      baseUrl <- (match subtitle with
                  | Undefined | Null => Ok Undefined
                  | _ => get subtitle (lit "baseUrl")
                  end) ;;
      if negb (truthy baseUrl) then Ok [] else
      subtitlesResponse <- fetch baseUrl ;;
      transcript <- body subtitlesResponse ;;
      let lines := getSubtitles_lines transcript in
      Ok lines
  end.

End Pipeline.

(** ** Sample collaborators

    Concrete stand-ins with which the operations run on concrete
    documents: a network that serves a fixed table of documents, an entity
    decoder that knows the predefined entities of XML, and the tag
    stripper with no tag allowed and an empty replacement. *)

Fixpoint table_lookup (url : jsstring) (table : list (jsstring * jsstring)) : option jsstring :=
  match table with
  | [] => None
  | (u, doc) :: rest => if jseqb u url then Some doc else table_lookup url rest
  end.

Definition serve (table : list (jsstring * jsstring)) (input : value) : result Response :=
  match input with
  | Str url =>
      match table_lookup url table with
      | Some doc => Ok {| ok := true; body := Ok doc |}
      | None => Throw (Rejected (lit "fetch failed"))
      end
  | _ => Throw TypeError
  end.

Definition no_agent (proxyUrl : jsstring) : result unit := Ok tt.

Definition serve_through (table : list (jsstring * jsstring)) (url : jsstring) (agent : unit)
  : result Response :=
  serve table (Str url).

Definition xml_entities : list (jsstring * code_unit) :=
  [(lit "&amp;", 38); (lit "&lt;", 60); (lit "&gt;", 62); (lit "&quot;", 34);
   (lit "&apos;", 39); (lit "&#39;", 39)].

Fixpoint entity_at (s : jsstring) (table : list (jsstring * code_unit)) : option (nat * code_unit) :=
  match table with
  | [] => None
  | (name, x) :: rest =>
      if starts_with name s then Some (length name, x) else entity_at s rest
  end.

Fixpoint decode_from (s : jsstring) (skip : nat) : jsstring :=
  match s with
  | [] => []
  | x :: s' =>
      match skip with
      | S n => decode_from s' n
      | O =>
          match entity_at s xml_entities with
          | Some (n, y) => y :: decode_from s' (n - 1)
          | None => x :: decode_from s' 0
          end
      end
  end.

Definition decode_xml_entities (s : jsstring) : jsstring := decode_from s 0.

Inductive strip_state : Type := Plaintext | Html | Comment.

Record strip_context : Type := {
  state : strip_state;
  tag_buffer : jsstring;
  depth : nat;
  in_quote_char : option code_unit;
  output : jsstring
}.

Definition strip_step (c : strip_context) (x : code_unit) : strip_context :=
  match state c with
  | Plaintext =>
      if N.eqb x 60
      then {| state := Html; tag_buffer := tag_buffer c ++ [x]; depth := depth c;
              in_quote_char := in_quote_char c; output := output c |}
      else {| state := Plaintext; tag_buffer := tag_buffer c; depth := depth c;
              in_quote_char := in_quote_char c; output := output c ++ [x] |}
  | Html =>
      if N.eqb x 60 then
        match in_quote_char c with
        | Some _ => c
        | None => {| state := Html; tag_buffer := tag_buffer c; depth := S (depth c);
                     in_quote_char := None; output := output c |}
        end
      else if N.eqb x 62 then
        match in_quote_char c, depth c with
        | Some _, _ => c
        | None, S d => {| state := Html; tag_buffer := tag_buffer c; depth := d;
                          in_quote_char := None; output := output c |}
        | None, O => {| state := Plaintext; tag_buffer := []; depth := O;
                        in_quote_char := None; output := output c |}
        end
      else if N.eqb x 34 || N.eqb x 39 then
        {| state := Html; tag_buffer := tag_buffer c ++ [x]; depth := depth c;
           in_quote_char := match in_quote_char c with
                            | Some q => if N.eqb q x then None else Some q
                            | None => Some x
                            end;
           output := output c |}
      else if N.eqb x 45 then
        {| state := if jseqb (tag_buffer c) (lit "<!-") then Comment else Html;
           tag_buffer := tag_buffer c ++ [x]; depth := depth c;
           in_quote_char := in_quote_char c; output := output c |}
      else if (N.eqb x 32 || N.eqb x 10) && jseqb (tag_buffer c) (lit "<") then
        {| state := Plaintext; tag_buffer := []; depth := depth c;
           in_quote_char := in_quote_char c; output := output c ++ lit "< " |}
      else
        {| state := Html; tag_buffer := tag_buffer c ++ [x]; depth := depth c;
           in_quote_char := in_quote_char c; output := output c |}
  | Comment =>
      if N.eqb x 62 then
        {| state := if jseqb (skipn (length (tag_buffer c) - 2) (tag_buffer c)) (lit "--")
                    then Plaintext else Comment;
           tag_buffer := []; depth := depth c;
           in_quote_char := in_quote_char c; output := output c |}
      else
        {| state := Comment; tag_buffer := tag_buffer c ++ [x]; depth := depth c;
           in_quote_char := in_quote_char c; output := output c |}
  end.

Definition strip_all_tags (html : jsstring) : jsstring :=
  output (fold_left strip_step html
            {| state := Plaintext; tag_buffer := []; depth := O;
               in_quote_char := None; output := [] |}).

(** The two operations over the sample collaborators, serving [table]. *)
Definition sample_getVideoDetails (table : list (jsstring * jsstring)) : Options -> result VideoDetails :=
  getVideoDetails no_agent (serve_through table) (serve table)
    decode_xml_entities strip_all_tags.

Definition sample_getSubtitles (table : list (jsstring * jsstring)) : Options -> result (list Subtitle) :=
  getSubtitles no_agent (serve_through table) (serve table)
    decode_xml_entities strip_all_tags.

(** ** Vocabulary of the properties *)

(** What a pattern may consume: [matches r t s c c'] holds when [r] can
    take the text [t] in front of [s], turning the capture [c] into [c']. *)
Inductive matches : regex -> jsstring -> jsstring -> option jsstring -> option jsstring -> Prop :=
| matches_Empty s c : matches Empty [] s c c
| matches_Class p x s c : p x = true -> matches (Class p) [x] s c c
| matches_Seq r1 r2 t1 t2 s c c1 c2 :
    matches r1 t1 (t2 ++ s) c c1 -> matches r2 t2 s c1 c2 ->
    matches (Seq r1 r2) (t1 ++ t2) s c c2
| matches_Alt_left r1 r2 t s c c' : matches r1 t s c c' -> matches (Alt r1 r2) t s c c'
| matches_Alt_right r1 r2 t s c c' : matches r2 t s c c' -> matches (Alt r1 r2) t s c c'
| matches_Star p t s c : Forall (fun x => p x = true) t -> matches (Star p) t s c c
| matches_LazyStar p t s c : Forall (fun x => p x = true) t -> matches (LazyStar p) t s c c
| matches_Group r t s c c' : matches r t s c c' -> matches (Group r) t s c (Some t)
| matches_EndOfInput c : matches EndOfInput [] [] c c.

(** A [start] or [dur] value as the attribute patterns capture it: a
    string, not empty, of decimal digits and full stops only. *)
Definition numeric_text (v : value) : bool :=
  match v with
  | Str (x :: s) => forallb (fun y => digit y || N.eqb y 46) (x :: s)
  | _ => false
  end.

(** [t] is the first element of [l] that passes [test]. *)
Definition first_match (test : value -> bool) (l : list value) (t : value) : Prop :=
  exists l1 l2, l = l1 ++ t :: l2 /\ test t = true /\ Forall (fun x => test x = false) l1.

(** [track.vssId === id] *)
Definition vssId_is (id : jsstring) (track : value) : bool :=
  match get track (lit "vssId") with
  | Ok v => strict_equals_string v id
  | Throw _ => false
  end.

(** Reading a property of [v] does not throw. *)
Definition has_properties (v : value) : bool :=
  match v with
  | Undefined | Null => false
  | _ => true
  end.

(** The test of the third [find], the loose rule. *)
Definition loose_rule (lang : jsstring) (track : value) : result bool :=
  vssId <- get track (lit "vssId") ;;
  if truthy vssId
  then m <- call_match vssId (lit "." ++ lang) ;;
       Ok (match m with Some _ => true | None => false end)
  else Ok false.

(** What a compiled pattern string tests: [wild_starts_with p s] holds when
    [s] starts with the units of [p], a full stop in [p] standing for any
    unit that is no line terminator; [wild_includes] looks for such a
    place anywhere in [s]. *)
Fixpoint wild_starts_with (p s : jsstring) : bool :=
  match p, s with
  | [], _ => true
  | x :: p', y :: s' => (if N.eqb x 46 then dot y else N.eqb y x) && wild_starts_with p' s'
  | _ :: _, [] => false
  end.

Fixpoint wild_includes (s p : jsstring) : bool :=
  wild_starts_with p s ||
  match s with
  | [] => false
  | _ :: s' => wild_includes s' p
  end.

(** The fragments of a timed-text document: what [split] returns, and the
    ones the [filter] keeps. *)
Definition fragments (transcript : jsstring) : list jsstring :=
  split
    (replace_string
       (replace_string transcript
          (lit "<?xml version=`1.0` encoding=`utf-8` ?><transcript>") [])
       (lit "</transcript>") [])
    (lit "</text>").

Definition nonblank (line : jsstring) : bool :=
  match line with
  | [] => false
  | _ :: _ => match trim line with [] => false | _ :: _ => true end
  end.

(** Both attribute patterns find a value in the fragment. *)
Definition extractable (line : jsstring) : bool :=
  match exec getVideoDetails_startRegex line, exec getVideoDetails_durRegex line with
  | Some _, Some _ => true
  | _, _ => false
  end.

(** The subtitle the callback of [reduce] pushes for a fragment. *)
Definition pushed (he_decode striptags : jsstring -> jsstring) (line : jsstring) : Subtitle :=
  {| start := match exec getVideoDetails_startRegex line with
              | Some m => capture m
              | None => Undefined
              end;
     dur := match exec getVideoDetails_durRegex line with
            | Some m => capture m
            | None => Undefined
            end;
     text := striptags
               (he_decode
                  (replace_all
                     (replace_all
                        (replace_first line
                           (Seq (chars (lit "<text")) (Seq (Plus dot) (Class (only 62))))
                           [])
                        (Seq (Class (only 38))
                             (Seq (Class (fold_case 97))
                                  (Seq (Class (fold_case 109))
                                       (Seq (Class (fold_case 112)) (Class (only 59))))))
                        (lit "&"))
                     (Seq (Class (only 60))
                          (Seq (Opt (Class (only 47)))
                               (Seq (Plus (except 62))
                                    (Group (Alt (Class (only 62)) EndOfInput)))))
                     [])) |}.

(** The page request of both operations. *)
Definition page_response (Agent : Type) (HttpsProxyAgent : jsstring -> result Agent)
           (NodeFetch : jsstring -> Agent -> result Response)
           (fetch : value -> result Response) (options : Options) : result Response :=
  if string_truthy (proxyURL options)
  then fetchThroughProxy HttpsProxyAgent NodeFetch
         (lit "https://youtube.com/watch?v=" ++ videoID options)
         (string_or_empty (proxyURL options))
  else fetch (Str (lit "https://youtube.com/watch?v=" ++ videoID options)).

(** The page markup an operation works on, when the page request and its
    [text()] succeed. *)
Definition page_markup (Agent : Type) (HttpsProxyAgent : jsstring -> result Agent)
           (NodeFetch : jsstring -> Agent -> result Response)
           (fetch : value -> result Response) (options : Options) : result jsstring :=
  response <- page_response HttpsProxyAgent NodeFetch fetch options ;;
  body response.

Definition language (options : Options) : jsstring :=
  match lang options with
  | Some l => l
  | None => lit "en"
  end.

(** The title and the description [getVideoDetails] reads off a page. *)
Definition page_title (data : jsstring) : value :=
  and_capture (exec getVideoDetails_titleRegex data).

Definition page_description (data : jsstring) : value :=
  if truthy (and_capture (exec getVideoDetails_descriptionRegex data))
  then and_capture (exec getVideoDetails_descriptionRegex data)
  else Str (lit "No description found").

(** The exits of the caption stage that end without a track: no marker
    in the page, no track list after the marker, no track selected, a
    selected track without a truthy [baseUrl]. *)
Inductive no_track (data lang : jsstring) : Prop :=
| no_marker :
    includes data (lit "captionTracks") = false -> no_track data lang
| no_track_list :
    exec getVideoDetails_regex data = None -> no_track data lang
| nothing_selected (m : match_array) (tracks : list value) :
    exec getVideoDetails_regex data = Some m ->
    JSON_parse_value (capture m) = Ok (Arr tracks) ->
    getVideoDetails_subtitle tracks lang = Ok Undefined ->
    no_track data lang
| no_baseUrl (m : match_array) (tracks : list value) (subtitle baseUrl : value) :
    exec getVideoDetails_regex data = Some m ->
    JSON_parse_value (capture m) = Ok (Arr tracks) ->
    getVideoDetails_subtitle tracks lang = Ok subtitle ->
    get subtitle (lit "baseUrl") = Ok baseUrl ->
    truthy baseUrl = false ->
    no_track data lang.

(** The ways the caption stage throws [e]: [JSON.parse] of the captured
    track list, the selection reading the tracks, the caption request, its
    [text()]. *)
Inductive caption_failure (fetch : value -> result Response)
          (data lang : jsstring) (e : exn) : Prop :=
| parse_throws (m : match_array) :
    exec getVideoDetails_regex data = Some m ->
    JSON_parse_value (capture m) = Throw e ->
    caption_failure fetch data lang e
| selection_throws (m : match_array) (tracks : list value) :
    exec getVideoDetails_regex data = Some m ->
    JSON_parse_value (capture m) = Ok (Arr tracks) ->
    getVideoDetails_subtitle tracks lang = Throw e ->
    caption_failure fetch data lang e
| fetch_throws (m : match_array) (tracks : list value) (subtitle baseUrl : value) :
    exec getVideoDetails_regex data = Some m ->
    JSON_parse_value (capture m) = Ok (Arr tracks) ->
    getVideoDetails_subtitle tracks lang = Ok subtitle ->
    get subtitle (lit "baseUrl") = Ok baseUrl ->
    truthy baseUrl = true ->
    fetch baseUrl = Throw e ->
    caption_failure fetch data lang e
| text_throws (m : match_array) (tracks : list value) (subtitle baseUrl : value)
              (response : Response) :
    exec getVideoDetails_regex data = Some m ->
    JSON_parse_value (capture m) = Ok (Arr tracks) ->
    getVideoDetails_subtitle tracks lang = Ok subtitle ->
    get subtitle (lit "baseUrl") = Ok baseUrl ->
    truthy baseUrl = true ->
    fetch baseUrl = Ok response ->
    body response = Throw e ->
    caption_failure fetch data lang e.

(** ** Concrete documents *)

Definition track (baseUrl vssId : string) : value :=
  Obj [(lit "baseUrl", Str (lit baseUrl)); (lit "vssId", Str (lit vssId))].

(** Tracks with the variant identifiers [a.en], [en-US], [.en]. *)
Definition english_tracks : list value :=
  [track "u1" "a.en"; track "u2" "en-US"; track "u3" ".en"].

Definition hello_document : jsstring :=
  lit "<?xml version=`1.0` encoding=`utf-8` ?><transcript><text start=`0.5` dur=`2.3`>Hello &amp;amp; world</text></transcript>".

(** One fragment with both attributes, one without [dur]. *)
Definition mixed_document : jsstring :=
  lit "<?xml version=`1.0` encoding=`utf-8` ?><transcript><text start=`1` dur=`2`>kept</text><text start=`3`>dropped</text></transcript>".

Definition watch (id : string) : jsstring := lit "https://youtube.com/watch?v=" ++ lit id.

Definition request (id : string) : Options :=
  {| videoID := lit id; lang := None; proxyURL := None |}.

Definition hello_line : Subtitle :=
  {| start := Str (lit "0.5"); dur := Str (lit "2.3"); text := lit "Hello & world" |}.

Definition kept_line : Subtitle :=
  {| start := Str (lit "1"); dur := Str (lit "2"); text := lit "kept" |}.

(** Watch pages: with the three English tracks and no description; with a
    title and a description but no caption data; with no title; with an
    empty title; with a track list that is no JSON (a comma is missing);
    with a [null] track; with a French track only; with the single track
    [xen]. *)
Definition english_page : jsstring :=
  lit "<html><meta name=`title` content=`A video`><script>{`captionTracks`:[{`baseUrl`:`u1`,`vssId`:`a.en`},{`baseUrl`:`u2`,`vssId`:`en-US`},{`baseUrl`:`u3`,`vssId`:`.en`}],`audioTracks`:[]}</script></html>".

Definition plain_page : jsstring :=
  lit "<html><meta name=`title` content=`A video`><meta name=`description` content=`About it`></html>".

Definition untitled_page : jsstring :=
  lit "<html><body>nothing here</body></html>".

Definition empty_title_page : jsstring :=
  lit "<html><meta name=`title` content=``><meta name=`description` content=`About it`></html>".

Definition garbled_page : jsstring :=
  lit "<html><meta name=`title` content=`A video`>{`captionTracks`:[{`baseUrl`:`u3` `vssId`:`.en`}]}</html>".

Definition null_track_page : jsstring :=
  lit "<html><meta name=`title` content=`A video`>{`captionTracks`:[null]}</html>".

Definition french_page : jsstring :=
  lit "<html><meta name=`title` content=`A video`>{`captionTracks`:[{`baseUrl`:`u5`,`vssId`:`.fr`}]}</html>".

Definition xen_page : jsstring :=
  lit "<html><meta name=`title` content=`A video`>{`captionTracks`:[{`baseUrl`:`u4`,`vssId`:`xen`}]}</html>".

(** A small web: the watch pages and the caption documents they point to. *)
Definition web : list (jsstring * jsstring) :=
  [ (watch "english", english_page);
    (watch "plain", plain_page);
    (watch "untitled", untitled_page);
    (watch "emptytitle", empty_title_page);
    (watch "garbled", garbled_page);
    (watch "nulltrack", null_track_page);
    (watch "french", french_page);
    (watch "xen", xen_page);
    (lit "u1", mixed_document);
    (lit "u3", hello_document);
    (lit "u4", mixed_document);
    (lit "u5", hello_document) ].

(** ** The route handler [GET]

    The caller of the two operations: it reads the query of the request,
    answers 400 without a video identifier, and otherwise runs
    [getSubtitles] and then [getVideoDetails], answering 200 with both
    results or 500 with the message of what was thrown. *)

(** [URLSearchParams.get]: the first value given for the name, [null]
    when there is none. *)
Fixpoint searchParams_get (searchParams : list (jsstring * jsstring)) (name : jsstring)
  : option jsstring :=
  match searchParams with
  | [] => None
  | (n, v) :: rest => if jseqb n name then Some v else searchParams_get rest name
  end.

(** The object handed to [NextResponse.json] and the status beside it. *)
Inductive json_body : Type :=
| error_body (error : jsstring)
| result_body (subtitles : list Subtitle) (videoDetails : VideoDetails).

Record NextResponse : Type := {
  json : json_body;
  status : N
}.

(** [error.message]: the text an [Error] was made with, the reason of a
    rejection, and for the errors the engine makes itself the text the
    engine gives them. *)
Definition message (engine_message : exn -> jsstring) (error : exn) : jsstring :=
  match error with
  | Error text => text
  | Rejected reason => reason
  | SyntaxError | TypeError | OutsideFragment => engine_message error
  end.

Section Route.
Variable Agent : Type.
Variable HttpsProxyAgent : jsstring -> result Agent.
Variable NodeFetch : jsstring -> Agent -> result Response.
Variable fetch : value -> result Response.
Variable he_decode : jsstring -> jsstring.
Variable striptags : jsstring -> jsstring.
Variable engine_message : exn -> jsstring.

Definition GET (searchParams : list (jsstring * jsstring)) : NextResponse :=
  let videoID := searchParams_get searchParams (lit "videoID") in
  let lang := if string_truthy (searchParams_get searchParams (lit "lang"))
              then string_or_empty (searchParams_get searchParams (lit "lang"))
              else lit "en" in
  let proxyURL := searchParams_get searchParams (lit "proxyURL") in
  if negb (string_truthy videoID)
  then {| json := error_body (lit "Missing videoID"); status := 400 |}
  else
    match
      subtitles <- getSubtitles HttpsProxyAgent NodeFetch fetch he_decode striptags
                     {| videoID := string_or_empty videoID; lang := Some lang;
                        proxyURL := proxyURL |} ;;
      videoDetails <- getVideoDetails HttpsProxyAgent NodeFetch fetch he_decode striptags
                        {| videoID := string_or_empty videoID; lang := Some lang;
                           proxyURL := proxyURL |} ;;
      Ok (subtitles, videoDetails)
    with
    | Ok (subtitles, videoDetails) =>
        {| json := result_body subtitles videoDetails; status := 200 |}
    | Throw error =>
        {| json := error_body (message engine_message error); status := 500 |}
    end.
End Route.

(** ** Vocabulary of the further properties *)

(** What a direct request gives the operations: the text of its response. *)
Definition fetch_text (fetch : value -> result Response) (input : value) : result jsstring :=
  response <- fetch input ;;
  body response.

(** The caption stage of [getSubtitles] on the markup [data]: everything
    after the page has been read. *)
Definition caption_stage (fetch : value -> result Response)
           (he_decode striptags : jsstring -> jsstring)
           (lang data : jsstring) : result (list Subtitle) :=
  if negb (includes data (lit "captionTracks")) then Ok [] else
  match exec getSubtitles_regex data with
  | None => Ok []
  | Some regexResult =>
      captionTracks <- JSON_parse_value (capture regexResult) ;;
      subtitle <- (match captionTracks with
                   | Arr tracks => getSubtitles_subtitle tracks lang
                   | _ => Throw TypeError
                   end) ;;
      baseUrl <- (match subtitle with
                  | Undefined | Null => Ok Undefined
                  | _ => get subtitle (lit "baseUrl")
                  end) ;;
      if negb (truthy baseUrl) then Ok [] else
      transcript <- fetch_text fetch baseUrl ;;
      Ok (getSubtitles_lines he_decode striptags transcript)
  end.

(** The address of the watch page of a video. *)
Definition watch_url (videoID : jsstring) : jsstring :=
  lit "https://youtube.com/watch?v=" ++ videoID.

(** The message of every failure [fetchThroughProxy] reports itself. *)
Definition proxy_failure (targetUrl proxyUrl : jsstring) : exn :=
  Error (lit "Failed to fetch " ++ targetUrl ++ lit " through proxy " ++ proxyUrl).

(** The options [GET] hands to both operations. *)
Definition route_options (searchParams : list (jsstring * jsstring)) : Options :=
  {| videoID := string_or_empty (searchParams_get searchParams (lit "videoID"));
     lang := Some (if string_truthy (searchParams_get searchParams (lit "lang"))
                   then string_or_empty (searchParams_get searchParams (lit "lang"))
                   else lit "en");
     proxyURL := searchParams_get searchParams (lit "proxyURL") |}.

(** [sub] occurs in [s] between [pre] and [post]. *)
Definition occurs_at (s pre sub post : jsstring) : Prop := s = pre ++ sub ++ post.

Definition quote_free (s : jsstring) : Prop := Forall (fun x => x <> 34) s.

(** The same network with every direct response marked as failed. *)
Definition not_ok (fetch : value -> result Response) (input : value) : result Response :=
  match fetch input with
  | Ok response => Ok {| ok := false; body := body response |}
  | Throw e => Throw e
  end.

(** A track the selection can test without throwing: a value that is not
    [null], whose [vssId] is a string or falsy. *)
Definition selection_safe (track : value) : bool :=
  has_properties track &&
  match get track (lit "vssId") with
  | Ok (Str _) => true
  | Ok v => negb (truthy v)
  | Throw _ => false
  end.

(** ** Well-formed timed-text documents

    A segment of a timed-text document and the document made of a list of
    segments, as the upstream service writes them. *)
Record segment : Type := {
  segment_start : jsstring;
  segment_dur : jsstring;
  segment_body : jsstring
}.

(** A segment without its closing tag: what [split] leaves of it. *)
Definition open_segment (g : segment) : jsstring :=
  lit "<text start=`" ++ segment_start g ++ lit "` dur=`" ++ segment_dur g
  ++ lit "`>" ++ segment_body g.

Definition render_segment (g : segment) : jsstring :=
  open_segment g ++ lit "</text>".

Definition render (segments : list segment) : jsstring :=
  lit "<?xml version=`1.0` encoding=`utf-8` ?><transcript>"
  ++ concat (map render_segment segments) ++ lit "</transcript>".

(** Both attributes are numbers as the patterns read them, and the body
    holds no angle bracket and no ampersand. *)
Definition well_formed (g : segment) : Prop :=
  numeric_text (Str (segment_start g)) = true
  /\ numeric_text (Str (segment_dur g)) = true
  /\ Forall (fun x => x <> 60 /\ x <> 62 /\ x <> 38) (segment_body g).

(** The line a segment stands for. *)
Definition line_of (he_decode striptags : jsstring -> jsstring) (g : segment) : Subtitle :=
  {| start := Str (segment_start g); dur := Str (segment_dur g);
     text := striptags (he_decode (segment_body g)) |}.

(** What the splitting of a document into fragments needs of a segment. *)
Definition splittable (g : segment) : Prop :=
  numeric_text (Str (segment_start g)) = true
  /\ numeric_text (Str (segment_dur g)) = true
  /\ Forall (fun x => x <> 60) (segment_body g).

(** A segment whose text holds no line terminator, no opening angle
    bracket and no ampersand; closing angle brackets are allowed. *)
Definition one_line (g : segment) : Prop :=
  numeric_text (Str (segment_start g)) = true
  /\ numeric_text (Str (segment_dur g)) = true
  /\ Forall (fun x => x <> 60 /\ x <> 38 /\ is_line_terminator x = false) (segment_body g).

(** The text after the last closing angle bracket, all of it when there
    is none. *)
Fixpoint after_last_bracket (body : jsstring) : jsstring :=
  match body with
  | [] => []
  | x :: t =>
      if existsb (fun y => N.eqb y 62) t then after_last_bracket t
      else if N.eqb x 62 then t else x :: t
  end.

Definition line_after_bracket (he_decode striptags : jsstring -> jsstring) (g : segment) : Subtitle :=
  {| start := Str (segment_start g); dur := Str (segment_dur g);
     text := striptags (he_decode (after_last_bracket (segment_body g))) |}.

(** ** The matcher is sound for [matches] *)

Lemma star_greedy_sound (A : Type) (p : code_unit -> bool) (s : jsstring)
      (k : jsstring -> option A) (a : A) :
  star_greedy p s k = Some a ->
  exists t s', s = t ++ s' /\ Forall (fun x => p x = true) t /\ k s' = Some a.
Proof.
  induction s as [|x s IH]; simpl; intros H.
  - exists [], []. auto.
  - destruct (p x) eqn:Hp.
    + destruct (star_greedy p s k) eqn:Hs.
      * inversion H; subst. destruct (IH eq_refl) as (t & s' & -> & Ht & Hk).
        exists (x :: t), s'. auto.
      * exists [], (x :: s). auto.
    + exists [], (x :: s). auto.
Qed.

Lemma star_lazy_sound (A : Type) (p : code_unit -> bool) (s : jsstring)
      (k : jsstring -> option A) (a : A) :
  star_lazy p s k = Some a ->
  exists t s', s = t ++ s' /\ Forall (fun x => p x = true) t /\ k s' = Some a.
Proof.
  induction s as [|x s IH]; simpl; intros H.
  - destruct (k []) eqn:Hk; [|discriminate]. inversion H; subst. exists [], []. auto.
  - destruct (k (x :: s)) eqn:Hk.
    + inversion H; subst. exists [], (x :: s). auto.
    + destruct (p x) eqn:Hp; [|discriminate].
      destruct (IH H) as (t & s' & -> & Ht & Hk').
      exists (x :: t), s'. auto.
Qed.

Lemma consumed_app (t s : jsstring) : consumed (t ++ s) s = t.
Proof.
  unfold consumed. rewrite length_app.
  replace (length t + length s - length s)%nat with (length t) by lia.
  rewrite firstn_app, Nat.sub_diag, firstn_all. simpl. apply app_nil_r.
Qed.

Lemma run_sound (A : Type) (r : regex) :
  forall (s : jsstring) (c : option jsstring)
         (k : jsstring -> option jsstring -> option A) (a : A),
    run r s c k = Some a ->
    exists t s' c', s = t ++ s' /\ matches r t s' c c' /\ k s' c' = Some a.
Proof.
  induction r as [|p|r1 IH1 r2 IH2|r1 IH1 r2 IH2|p|p|r IH|]; simpl; intros s c k a H.
  - exists [], s, c. repeat split; auto. constructor.
  - destruct s as [|x s]; [discriminate|].
    destruct (p x) eqn:Hp; [|discriminate].
    exists [x], s, c. repeat split; auto. now constructor.
  - apply IH1 in H. destruct H as (t1 & s1 & c1 & -> & M1 & H).
    apply IH2 in H. destruct H as (t2 & s2 & c2 & -> & M2 & H).
    exists (t1 ++ t2), s2, c2. rewrite <- app_assoc. repeat split; auto.
    econstructor; eauto.
  - destruct (run r1 s c k) eqn:H1.
    + inversion H; subst. apply IH1 in H1. destruct H1 as (t & s' & c' & -> & M & Hk).
      exists t, s', c'. repeat split; auto. now apply matches_Alt_left.
    + apply IH2 in H. destruct H as (t & s' & c' & -> & M & Hk).
      exists t, s', c'. repeat split; auto. now apply matches_Alt_right.
  - apply star_greedy_sound in H. destruct H as (t & s' & -> & Ht & Hk).
    exists t, s', c. repeat split; auto. now constructor.
  - apply star_lazy_sound in H. destruct H as (t & s' & -> & Ht & Hk).
    exists t, s', c. repeat split; auto. now constructor.
  - apply IH in H. destruct H as (t & s' & c' & -> & M & Hk).
    rewrite consumed_app in Hk.
    exists t, s', (Some t). repeat split; auto. econstructor; eauto.
  - destruct s; [|discriminate]. exists [], [], c. repeat split; auto. constructor.
Qed.

Lemma match_here_sound (r : regex) (s s' : jsstring) (c : option jsstring) :
  match_here r s = Some (s', c) ->
  exists t, s = t ++ s' /\ matches r t s' None c.
Proof.
  unfold match_here. intros H. apply run_sound in H.
  destruct H as (t & s1 & c1 & -> & M & Hk). inversion Hk; subst. eauto.
Qed.

(** What [exec] returns is a match of the pattern, cut out of the subject. *)
Lemma exec_from_sound (r : regex) (s pre : jsstring) (m : match_array) :
  exec_from r pre s = Some m ->
  rev pre ++ s = before m ++ whole m ++ after m /\
  matches r (whole m) (after m) None (group1 m).
Proof.
  revert pre. induction s as [|x s IH]; intros pre; cbn [exec_from].
  - destruct (match_here r []) as [[s' c]|] eqn:H; [|discriminate].
    intros [= <-]; cbn [before whole group1 after].
    apply match_here_sound in H. destruct H as (t & E' & M).
    destruct t; [|discriminate]. simpl in E'. subst s'. simpl. auto.
  - destruct (match_here r (x :: s)) as [[s' c]|] eqn:H.
    + clear IH. intros [= <-]; cbn [before whole group1 after].
      apply match_here_sound in H. destruct H as (t & E' & M).
      rewrite E'. rewrite consumed_app. auto.
    + intros E. apply IH in E. simpl in E. rewrite <- app_assoc in E. exact E.
Qed.

Lemma exec_sound (r : regex) (s : jsstring) (m : match_array) :
  exec r s = Some m ->
  s = before m ++ whole m ++ after m /\ matches r (whole m) (after m) None (group1 m).
Proof. intros H. apply exec_from_sound in H. exact H. Qed.

Lemma matches_Seq_inv r1 r2 t s c c' :
  matches (Seq r1 r2) t s c c' ->
  exists t1 t2 c1,
    t = t1 ++ t2 /\ matches r1 t1 (t2 ++ s) c c1 /\ matches r2 t2 s c1 c'.
Proof. intros M. inversion M; subst. eauto 7. Qed.

Lemma matches_Class_inv p t s c c' :
  matches (Class p) t s c c' -> exists x, t = [x] /\ p x = true /\ c' = c.
Proof. intros M. inversion M; subst. eauto. Qed.

Lemma matches_Star_inv p t s c c' :
  matches (Star p) t s c c' -> Forall (fun x => p x = true) t /\ c' = c.
Proof. intros M. inversion M; subst. auto. Qed.

Lemma matches_Group_inv r t s c c' :
  matches (Group r) t s c c' -> c' = Some t /\ exists c1, matches r t s c c1.
Proof. intros M. inversion M; subst. eauto. Qed.

(** An attribute pattern (a fixed prefix, the group of digits and full
    stops, the closing quote) captures a non-empty numeric text. *)
Lemma attribute_capture (prefix : jsstring) (line : jsstring) (m : match_array) :
  exec (Seq (chars prefix)
            (Seq (Group (Plus (fun x => digit x || N.eqb x 46))) (Class (only 34))))
       line = Some m ->
  numeric_text (capture m) = true.
Proof.
  intros H. apply exec_sound in H. destruct H as [_ M].
  apply matches_Seq_inv in M. destruct M as (t1 & t2 & c1 & _ & _ & M).
  apply matches_Seq_inv in M. destruct M as (t3 & t4 & c2 & _ & G & Q).
  apply matches_Class_inv in Q. destruct Q as (_ & _ & _ & Ec).
  apply matches_Group_inv in G. destruct G as (E & c3 & P).
  unfold Plus in P.
  apply matches_Seq_inv in P. destruct P as (t5 & t6 & c4 & Et & P1 & P2).
  apply matches_Class_inv in P1. destruct P1 as (x & Ex & Hx & _).
  apply matches_Star_inv in P2. destruct P2 as (Hall & _).
  unfold capture. rewrite Ec, E, Et, Ex. simpl. rewrite Hx. simpl.
  apply forallb_forall. intros y Hy. rewrite Forall_forall in Hall. auto.
Qed.

(** [reduce] with a callback that pushes one element for the items it
    keeps is [map] after [filter]. *)
Lemma reduce_push (A B : Type) (step : list B -> A -> list B)
      (keep : A -> bool) (make : A -> B) :
  (forall acc x, step acc x = if keep x then acc ++ [make x] else acc) ->
  forall l acc, fold_left step l acc = acc ++ map make (filter keep l).
Proof.
  intros Hstep. induction l as [|x l IH]; intros acc; simpl.
  - now rewrite app_nil_r.
  - rewrite IH, Hstep. destruct (keep x); simpl; auto.
    now rewrite <- app_assoc.
Qed.

Section LineFacts.
Variable he_decode : jsstring -> jsstring.
Variable striptags : jsstring -> jsstring.

Lemma lines_map_filter (transcript : jsstring) :
  getVideoDetails_lines he_decode striptags transcript =
  map (pushed he_decode striptags) (filter extractable (filter nonblank (fragments transcript))).
Proof.
  unfold getVideoDetails_lines.
  change (filter _ (split _ _)) with (filter nonblank (fragments transcript)).
  rewrite reduce_push with (keep := extractable) (make := pushed he_decode striptags); [reflexivity|].
  intros acc line. unfold extractable, pushed.
  destruct (exec getVideoDetails_startRegex line);
    destruct (exec getVideoDetails_durRegex line); reflexivity.
Qed.

Lemma pushed_numeric (line : jsstring) :
  extractable line = true ->
  numeric_text (start (pushed he_decode striptags line)) = true /\
numeric_text (dur (pushed he_decode striptags line)) = true.
Proof.
  unfold extractable, pushed. simpl.
  destruct (exec getVideoDetails_startRegex line) as [ms|] eqn:Hs; [|discriminate].
  destruct (exec getVideoDetails_durRegex line) as [md|] eqn:Hd; [|discriminate].
  intros _. split; eapply attribute_capture; eassumption.
Qed.

Lemma lines_numeric (transcript : jsstring) :
  Forall (fun line => numeric_text (start line) = true /\ numeric_text (dur line) = true)
         (getVideoDetails_lines he_decode striptags transcript).
Proof.
  rewrite lines_map_filter. apply Forall_forall. intros sub Hin.
  apply in_map_iff in Hin. destruct Hin as (line & <- & Hin).
  apply filter_In in Hin. apply pushed_numeric. tauto.
Qed.

Lemma lines_same (transcript : jsstring) :
  getSubtitles_lines he_decode striptags transcript =
  getVideoDetails_lines he_decode striptags transcript.
Proof. reflexivity. Qed.
End LineFacts.

(** ** [JSON.parse] always answers *)

Lemma skip_ws_length (s : jsstring) : (length (skip_ws s) <= length s)%nat.
Proof.
  induction s as [|x s IH]; simpl; [lia|].
  destruct (is_json_space x); simpl; lia.
Qed.

Lemma tl_length (s : jsstring) : (length (tl s) <= length s)%nat.
Proof. destruct s; simpl; lia. Qed.

Lemma head_is_tl (c : code_unit) (s : jsstring) :
  head_is c s = true -> (length (tl s) < length s)%nat.
Proof. destruct s; simpl; [discriminate|lia]. Qed.

Lemma head_is_skip_ws (c : code_unit) (s : jsstring) :
  head_is c (skip_ws s) = true -> (length (tl (skip_ws s)) < length s)%nat.
Proof.
  intros H. apply head_is_tl in H. pose proof (skip_ws_length s). lia.
Qed.

Lemma parse_string_body_length (n : nat) :
  forall s acc t r,
    (length s <= n)%nat ->
    parse_string_body s acc = Some (t, r) -> (length r < length s)%nat.
Proof.
  induction n as [|n IH]; intros s acc t r Hn H.
  - destruct s; [discriminate|simpl in Hn; lia].
  - destruct s as [|x s1]; [discriminate|].
    simpl in Hn. cbn [parse_string_body] in H.
    destruct (N.eqb x 34).
    { inversion H; subst. simpl. lia. }
    destruct (N.eqb x 92).
    + destruct s1 as [|e s2]; [discriminate|].
      destruct (N.eqb e 117).
      * destruct s2 as [|a [|b [|c [|d s3]]]]; try discriminate.
        destruct (hex4 a b c d); [|discriminate].
        apply IH in H; simpl in *; lia.
      * destruct (unescape e); [|discriminate].
        apply IH in H; simpl in *; lia.
    + destruct (N.ltb x 32); [discriminate|].
      apply IH in H; simpl in *; lia.
Qed.

Lemma take_digits_length (s ds r : jsstring) :
  take_digits s = (ds, r) -> (length ds + length r = length s)%nat.
Proof.
  revert ds r. induction s as [|x s IH]; simpl; intros ds r H.
  - inversion H; reflexivity.
  - destruct (digit x).
    + destruct (take_digits s) as [ds' r'] eqn:E. inversion H; subst.
      specialize (IH _ _ eq_refl). simpl. lia.
    + inversion H; subst. reflexivity.
Qed.

Lemma parse_number_length (s : jsstring) (v : value) (r : jsstring) :
  parse_number s = Some (v, r) -> (length r < length s)%nat.
Proof.
  unfold parse_number.
  set (s1 := if head_is 45 s then tl s else s).
  assert (L1 : (length s1 <= length s)%nat).
  { unfold s1. destruct (head_is 45 s); [apply tl_length|lia]. }
  destruct (if head_is 48 s1 then ([48], tl s1) else take_digits s1) as [int s2] eqn:Eint.
  assert (L2 : int <> [] -> (length s2 < length s1)%nat).
  { destruct (head_is 48 s1) eqn:H0.
    - inversion Eint; subst. intros _. eapply head_is_tl; eassumption.
    - apply take_digits_length in Eint. destruct int; [congruence|simpl in Eint; lia]. }
  destruct int as [|i int]; [discriminate|].
  assert (L2' : (length s2 < length s1)%nat) by (apply L2; discriminate). clear L2.
  destruct (if head_is 46 s2 then _ else _) as [[fs s3]|] eqn:Efrac; [|discriminate].
  assert (L3 : (length s3 <= length s2)%nat).
  { destruct (head_is 46 s2).
    - destruct (take_digits (tl s2)) as [[|f fs'] r'] eqn:E; [discriminate|].
      inversion Efrac; subst. apply take_digits_length in E.
      pose proof (tl_length s2). simpl in E. lia.
    - inversion Efrac; subst. lia. }
  destruct (if head_is 101 s3 || head_is 69 s3 then _ else _) as [[ex s4]|] eqn:Eexp;
    [|discriminate].
  assert (L4 : (length s4 <= length s3)%nat).
  { destruct (head_is 101 s3 || head_is 69 s3).
    - cbv zeta in Eexp.
      destruct (take_digits _) as [[|e' es] r2] eqn:E in Eexp; [discriminate|].
      inversion Eexp; subst. apply take_digits_length in E.
      pose proof (tl_length s3). pose proof (tl_length (tl s3)).
      destruct (head_is 45 (tl s3) || head_is 43 (tl s3)); simpl in E; lia.
    - inversion Eexp; subst. lia. }
  intros H. inversion H; subst. lia.
Qed.

Lemma parse_progress (fuel : nat) :
  (forall s v r, parse_value fuel s = Parsed v r -> (length r < length s)%nat)
  /\ (forall s acc v r, parse_elements fuel s acc = Parsed v r -> (length r < length s)%nat)
  /\ (forall s acc v r, parse_members fuel s acc = Parsed v r -> (length r < length s)%nat).
Proof.
  induction fuel as [|f (IHv & IHe & IHm)].
  - repeat split; intros; discriminate.
  - repeat split.
    + intros s v r. cbn [parse_value].
      pose proof (skip_ws_length s) as Ls.
      destruct (skip_ws s) as [|x t] eqn:Es; [discriminate|]. simpl in Ls.
      destruct (N.eqb x 91).
      { destruct (head_is 93 (skip_ws t)) eqn:Hc.
        - intros H; inversion H; subst. apply head_is_skip_ws in Hc. lia.
        - intros H. apply IHe in H. lia. }
      destruct (N.eqb x 123).
      { destruct (head_is 125 (skip_ws t)) eqn:Hc.
        - intros H; inversion H; subst. apply head_is_skip_ws in Hc. lia.
        - intros H. apply IHm in H. lia. }
      destruct (N.eqb x 34).
      { destruct (parse_string_body t []) as [[u r']|] eqn:Eb; [|discriminate].
        intros H; inversion H; subst.
        apply (@parse_string_body_length (length t)) in Eb; lia. }
      destruct (starts_with (lit "true") (x :: t)).
      { intros H. assert (E : r = skipn 4 (x :: t)) by congruence.
        subst r. rewrite length_skipn. cbn [length]. lia. }
      destruct (starts_with (lit "false") (x :: t)).
      { intros H. assert (E : r = skipn 5 (x :: t)) by congruence.
        subst r. rewrite length_skipn. cbn [length]. lia. }
      destruct (starts_with (lit "null") (x :: t)).
      { intros H. assert (E : r = skipn 4 (x :: t)) by congruence.
        subst r. rewrite length_skipn. cbn [length]. lia. }
      destruct (parse_number (x :: t)) as [[w r']|] eqn:En; [|discriminate].
      intros H; inversion H; subst. apply parse_number_length in En. simpl in En. lia.
    + intros s acc v r. cbn [parse_elements].
      destruct (parse_value f s) as [w t| |] eqn:Ev; try discriminate.
      apply IHv in Ev.
      destruct (head_is 44 (skip_ws t)) eqn:Hc.
      { intros H. apply IHe in H. apply head_is_skip_ws in Hc. lia. }
      destruct (head_is 93 (skip_ws t)) eqn:Hd; [|discriminate].
      intros H; inversion H; subst. apply head_is_skip_ws in Hd. lia.
    + intros s acc v r. cbn [parse_members].
      destruct (head_is 34 (skip_ws s)) eqn:Hq; [|discriminate].
      apply head_is_skip_ws in Hq.
      destruct (parse_string_body (tl (skip_ws s)) []) as [[key r1]|] eqn:Eb; [|discriminate].
      apply (@parse_string_body_length (length (tl (skip_ws s)))) in Eb; [|lia].
      destruct (head_is 58 (skip_ws r1)) eqn:Hc; [|discriminate].
      apply head_is_skip_ws in Hc.
      destruct (parse_value f (tl (skip_ws r1))) as [w r3| |] eqn:Ev; try discriminate.
      apply IHv in Ev.
      destruct (head_is 44 (skip_ws r3)) eqn:Hd.
      { intros H. apply IHm in H. apply head_is_skip_ws in Hd. lia. }
      destruct (head_is 125 (skip_ws r3)) eqn:He; [|discriminate].
      intros H; inversion H; subst. apply head_is_skip_ws in He. lia.
Qed.

Lemma parse_fuel (fuel : nat) :
  (forall s, (2 * length s + 1 <= fuel)%nat -> parse_value fuel s <> NoFuel)
  /\ (forall s acc, (2 * length s + 2 <= fuel)%nat -> parse_elements fuel s acc <> NoFuel)
  /\ (forall s acc, (2 * length s + 2 <= fuel)%nat -> parse_members fuel s acc <> NoFuel).
Proof.
  induction fuel as [|f (IHv & IHe & IHm)].
  - repeat split; intros; lia.
  - repeat split.
    + intros s Hf. cbn [parse_value].
      pose proof (skip_ws_length s) as Ls.
      destruct (skip_ws s) as [|x t] eqn:Es; [discriminate|]. simpl in Ls.
      destruct (N.eqb x 91).
      { destruct (head_is 93 (skip_ws t)); [discriminate|]. apply IHe. lia. }
      destruct (N.eqb x 123).
      { destruct (head_is 125 (skip_ws t)); [discriminate|]. apply IHm. lia. }
      destruct (N.eqb x 34).
      { destruct (parse_string_body t []) as [[u r']|]; discriminate. }
      destruct (starts_with (lit "true") (x :: t)); [discriminate|].
      destruct (starts_with (lit "false") (x :: t)); [discriminate|].
      destruct (starts_with (lit "null") (x :: t)); [discriminate|].
      destruct (parse_number (x :: t)) as [[w r']|]; discriminate.
    + intros s acc Hf. cbn [parse_elements].
      destruct (parse_value f s) as [w t| |] eqn:Ev.
      * apply (proj1 (parse_progress f)) in Ev.
        destruct (head_is 44 (skip_ws t)) eqn:Hc.
        { apply head_is_skip_ws in Hc. apply IHe. lia. }
        destruct (head_is 93 (skip_ws t)); discriminate.
      * discriminate.
      * exfalso. revert Ev. apply IHv. lia.
    + intros s acc Hf. cbn [parse_members].
      destruct (head_is 34 (skip_ws s)) eqn:Hq; [|discriminate].
      apply head_is_skip_ws in Hq.
      destruct (parse_string_body (tl (skip_ws s)) []) as [[key r1]|] eqn:Eb; [|discriminate].
      apply (@parse_string_body_length (length (tl (skip_ws s)))) in Eb; [|lia].
      destruct (head_is 58 (skip_ws r1)) eqn:Hc; [|discriminate].
      apply head_is_skip_ws in Hc.
      destruct (parse_value f (tl (skip_ws r1))) as [w r3| |] eqn:Ev.
      * apply (proj1 (parse_progress f)) in Ev.
        destruct (head_is 44 (skip_ws r3)) eqn:Hd.
        { apply head_is_skip_ws in Hd. apply IHm. lia. }
        destruct (head_is 125 (skip_ws r3)); discriminate.
      * discriminate.
      * exfalso. revert Ev. apply IHv. lia.
Qed.

(** [JSON.parse] always has fuel enough: it returns a value or throws a
    SyntaxError. *)
Lemma JSON_parse_total (text : jsstring) :
  (exists v, JSON_parse text = Ok v) \/ JSON_parse text = Throw SyntaxError.
Proof.
  unfold JSON_parse.
  pose proof (proj1 (parse_fuel (2 * length text + 1)) text (le_n _)) as Hfuel.
  destruct (parse_value (2 * length text + 1) text) as [v rest| |]; [| auto | congruence].
  destruct (skip_ws rest); eauto.
Qed.

Lemma parse_elements_array (fuel : nat) :
  forall s acc v r, parse_elements fuel s acc = Parsed v r -> exists items, v = Arr items.
Proof.
  induction fuel as [|f IH]; intros s acc v r; [discriminate|].
  cbn [parse_elements].
  destruct (parse_value f s) as [w t| |]; try discriminate.
  destruct (head_is 44 (skip_ws t)); [apply IH|].
  destruct (head_is 93 (skip_ws t)); [|discriminate].
  intros H; inversion H; eauto.
Qed.

(** A text that starts with a bracket parses to an array, if it parses. *)
Lemma JSON_parse_array (text : jsstring) (v : value) :
  JSON_parse (91 :: text) = Ok v -> exists items, v = Arr items.
Proof.
  unfold JSON_parse.
  assert (F : forall n, (2 * S n + 1 = S (2 * n + 2))%nat) by (intros; lia).
  cbn [length]. rewrite F. clear F.
  cbn [parse_value].
  replace (skip_ws (91 :: text)) with (91 :: text) by reflexivity.
  replace (N.eqb 91 91) with true by reflexivity.
  destruct (head_is 93 (skip_ws text)).
  - destruct (skip_ws (tl (skip_ws text))); [|discriminate].
    intros H; inversion H; eauto.
  - destruct (parse_elements _ text []) as [w rest| |] eqn:E; try discriminate.
    apply parse_elements_array in E. destruct E as [items ->].
    destruct (skip_ws rest); [|discriminate]. intros H; inversion H; eauto.
Qed.

(** ** The two operations *)

Lemma regex_same : getSubtitles_regex = getVideoDetails_regex.
Proof. reflexivity. Qed.

Lemma subtitle_same (tracks : list value) (lang : jsstring) :
  getSubtitles_subtitle tracks lang = getVideoDetails_subtitle tracks lang.
Proof. reflexivity. Qed.

Section OperationFacts.
Variable Agent : Type.
Variable HttpsProxyAgent : jsstring -> result Agent.
Variable NodeFetch : jsstring -> Agent -> result Response.
Variable fetch : value -> result Response.
Variable he_decode : jsstring -> jsstring.
Variable striptags : jsstring -> jsstring.

Local Abbreviation details := (getVideoDetails HttpsProxyAgent NodeFetch fetch he_decode striptags).
Local Abbreviation subs := (getSubtitles HttpsProxyAgent NodeFetch fetch he_decode striptags).
Local Abbreviation markup := (page_markup HttpsProxyAgent NodeFetch fetch).

(** [getVideoDetails] is the title check followed by what [getSubtitles]
    does, on the same page. *)
Lemma details_by_subs (options : Options) (data : jsstring) :
  markup options = Ok data ->
  details options =
  if negb (truthy (page_title data))
  then Throw (Error (lit "No video found for: " ++ videoID options))
  else lines <- subs options ;;
       Ok {| title := page_title data; description := page_description data;
             subtitles := lines |}.
Proof.
  unfold page_markup, page_response, getVideoDetails, getSubtitles, bind.
  cbv zeta. intros Hpage.
  destruct (if string_truthy (proxyURL options) then _ else _) as [response|e];
    [|discriminate].
  rewrite Hpage. fold (page_title data). fold (page_description data).
  destruct (negb (truthy (page_title data))); [reflexivity|].
  destruct (negb (includes data (lit "captionTracks"))); [reflexivity|].
  change getSubtitles_regex with getVideoDetails_regex.
  destruct (exec getVideoDetails_regex data) as [regexResult|]; [|reflexivity].
  destruct (JSON_parse_value (capture regexResult)) as [captionTracks|]; [|reflexivity].
  destruct captionTracks; try reflexivity.
  change getSubtitles_subtitle with getVideoDetails_subtitle.
  destruct (getVideoDetails_subtitle items _) as [subtitle|]; [|reflexivity].
  destruct (match subtitle with Undefined | Null => Ok Undefined | _ => _ end) as [baseUrl|];
    [|reflexivity].
  destruct (negb (truthy baseUrl)); [reflexivity|].
  destruct (fetch baseUrl) as [subtitlesResponse|]; [|reflexivity].
  destruct (body subtitlesResponse); reflexivity.
Qed.

Lemma details_page (options : Options) (vd : VideoDetails) :
  details options = Ok vd -> exists data, markup options = Ok data.
Proof.
  unfold page_markup, page_response, getVideoDetails, bind. cbv zeta.
  destruct (if string_truthy (proxyURL options) then _ else _) as [response|e];
    [|discriminate].
  destruct (body response) as [data|]; [|discriminate]. eauto.
Qed.
End OperationFacts.

(** ** Track selection *)

Lemma vssId_is_object (id : jsstring) (track : value) :
  vssId_is id track = true -> truthy track = true /\ has_properties track = true.
Proof.
  unfold vssId_is. destruct track; simpl; try discriminate; auto.
Qed.

Lemma exact_rule_test (id : jsstring) (track : value) :
  has_properties track = true ->
  (vssId <- get track (lit "vssId") ;; Ok (strict_equals_string vssId id))
  = Ok (vssId_is id track).
Proof.
  unfold vssId_is. destruct track; simpl; try discriminate; reflexivity.
Qed.

(** An exact rule finds the first track with the identifier. *)
Lemma find_exact_first (id : jsstring) (tracks : list value) (t : value) :
  Forall (fun x => has_properties x = true) tracks ->
  first_match (vssId_is id) tracks t ->
  find (fun track => vssId <- get track (lit "vssId") ;;
                     Ok (strict_equals_string vssId id)) tracks = Ok t.
Proof.
  intros Hall (l1 & l2 & -> & Ht & Hbefore).
  induction l1 as [|x l1 IH]; simpl.
  - apply Forall_inv in Hall. rewrite (exact_rule_test id t Hall). simpl. now rewrite Ht.
  - inversion Hall as [|? ? Hx Hrest]; subst. inversion Hbefore as [|? ? Hfx Hb]; subst.
    rewrite (exact_rule_test id x Hx). simpl. rewrite Hfx. auto.
Qed.

(** An exact rule finds nothing where no track has the identifier. *)
Lemma find_exact_none (id : jsstring) (tracks : list value) :
  Forall (fun x => has_properties x = true) tracks ->
  Forall (fun x => vssId_is id x = false) tracks ->
  find (fun track => vssId <- get track (lit "vssId") ;;
                     Ok (strict_equals_string vssId id)) tracks = Ok Undefined.
Proof.
  induction tracks as [|x l IH]; simpl; intros Hall Hnone; [reflexivity|].
  inversion Hall; subst. inversion Hnone; subst.
  rewrite (exact_rule_test id x) by assumption. simpl.
  replace (vssId_is id x) with false by auto. auto.
Qed.

Lemma first_match_unique (test : value -> bool) (l : list value) (t : value) :
  first_match test l t -> ~ Forall (fun x => test x = false) l.
Proof.
  intros (l1 & l2 & -> & Ht & _) Hall.
  rewrite Forall_forall in Hall. specialize (Hall t).
  rewrite Hall in Ht; [discriminate|]. apply in_or_app. right. now left.
Qed.

Lemma run_pattern (A : Type) (source : jsstring) :
  forall (s : jsstring) (c : option jsstring)
         (k : jsstring -> option jsstring -> option A),
    run (pattern source) s c k =
    if wild_starts_with source s then k (skipn (length source) s) c else None.
Proof.
  induction source as [|x source IH]; intros s c k; simpl.
  - reflexivity.
  - destruct s as [|y s]; [reflexivity|].
    destruct (N.eqb x 46); simpl.
    + destruct (dot y); simpl; [apply IH|reflexivity].
    + unfold only. destruct (N.eqb y x); simpl; [apply IH|reflexivity].
Qed.

Lemma exec_from_pattern (source s pre : jsstring) :
  match exec_from (pattern source) pre s with Some _ => true | None => false end
  = wild_includes s source.
Proof.
  revert pre. induction s as [|y s IH]; intros pre; cbn [exec_from wild_includes];
    unfold match_here; rewrite run_pattern.
  - destruct (wild_starts_with source []); reflexivity.
  - destruct (wild_starts_with source (y :: s)); [reflexivity|]. apply IH.
Qed.

(** The loose rule on a track with a non-empty string for [vssId]. *)
Lemma loose_rule_test (lang : jsstring) (props : list (jsstring * value))
      (x : code_unit) (s : jsstring) :
  existsb is_syntax_character lang = false ->
  lookup (lit "vssId") props = Some (Str (x :: s)) ->
  loose_rule lang (Obj props) = Ok (wild_includes (x :: s) (lit "." ++ lang)).
Proof.
  intros Hplain Hid. unfold loose_rule, get. rewrite Hid. cbn [bind truthy call_match].
  assert (E : existsb is_syntax_character (lit "." ++ lang) = false).
  { change (lit "." ++ lang) with (46 :: lang). cbn [existsb].
    rewrite Hplain. reflexivity. }
  unfold RegExp. rewrite E. cbn [bind]. unfold exec.
  rewrite <- (exec_from_pattern (lit "." ++ lang) (x :: s) []).
  destruct (exec_from _ _ _); reflexivity.
Qed.

(** The literal test is the stronger one. *)
Lemma starts_with_wild (p s : jsstring) :
  starts_with p s = true -> wild_starts_with p s = true.
Proof.
  revert s. induction p as [|x p IH]; intros s; simpl; [reflexivity|].
  destruct s as [|y s]; [discriminate|].
  intros H. apply andb_true_iff in H. destruct H as [Hx Hp].
  apply N.eqb_eq in Hx. subst y. rewrite (IH _ Hp), andb_true_r.
  destruct (N.eqb x 46) eqn:E; [|apply N.eqb_refl].
  apply N.eqb_eq in E. subst x. reflexivity.
Qed.

Lemma includes_wild (s p : jsstring) :
  includes s p = true -> wild_includes s p = true.
Proof.
  induction s as [|y s IH]; simpl; intros H.
  - rewrite orb_false_r in H. rewrite (starts_with_wild _ _ H). reflexivity.
  - apply orb_true_iff in H. destruct H as [H|H].
    + now rewrite (starts_with_wild _ _ H).
    + rewrite (IH H). apply orb_true_r.
Qed.

(** C1. Track selection is a function of the track list and the language
    that tries three rules in strict priority order, the first match of the
    first rule that has one being selected: a track whose variant
    identifier is exactly the dot followed by the language, else one whose
    identifier is exactly [a.] followed by the language, else what the
    loose rule finds.  Stated for the selection of both operations, over
    track lists whose elements can be read (no [null]); for the tracks
    [a.en], [en-US], [.en] and the language [en] the track [.en] is
    selected. *)
Theorem C1_track_selection_priority :
  forall select : list value -> jsstring -> result value,
    select = getVideoDetails_subtitle \/ select = getSubtitles_subtitle ->
    (forall (tracks : list value) (lang : jsstring),
        Forall (fun x => has_properties x = true) tracks ->
        (forall t, first_match (vssId_is (lit "." ++ lang)) tracks t ->
                   select tracks lang = Ok t)
        /\ (Forall (fun x => vssId_is (lit "." ++ lang) x = false) tracks ->
            forall t, first_match (vssId_is (lit "a." ++ lang)) tracks t ->
                      select tracks lang = Ok t)
        /\ (Forall (fun x => vssId_is (lit "." ++ lang) x = false) tracks ->
            Forall (fun x => vssId_is (lit "a." ++ lang) x = false) tracks ->
            select tracks lang = find (loose_rule lang) tracks))
    /\ select english_tracks (lit "en") = Ok (track "u3" ".en").
Proof.
  intros select Hselect.
  assert (E : select = getVideoDetails_subtitle) by (destruct Hselect; subst; reflexivity).
  subst select. clear Hselect. split; [|reflexivity].
  intros tracks lang Hread. unfold getVideoDetails_subtitle.
  split; [|split].
  - intros t Hfirst. rewrite (find_exact_first Hread Hfirst). cbn [bind].
    destruct Hfirst as (l1 & l2 & _ & Ht & _).
    apply vssId_is_object in Ht. destruct Ht as [Ht _]. now rewrite Ht.
  - intros Hnone t Hfirst. rewrite (@find_exact_none _ tracks Hread Hnone).
    cbn [bind truthy]. rewrite (find_exact_first Hread Hfirst). cbn [bind].
    destruct Hfirst as (l1 & l2 & _ & Ht & _).
    apply vssId_is_object in Ht. destruct Ht as [Ht _]. now rewrite Ht.
  - intros Hnone1 Hnone2.
    rewrite (@find_exact_none _ tracks Hread Hnone1). cbn [bind truthy].
    rewrite (@find_exact_none _ tracks Hread Hnone2). cbn [bind truthy].
    reflexivity.
Qed.

Lemma C1_witness :
  getSubtitles_subtitle english_tracks (lit "en") = Ok (track "u3" ".en").
Proof.
  destruct (C1_track_selection_priority (or_intror eq_refl)) as [General _].
  destruct (General english_tracks (lit "en")) as [Manual _].
  - repeat constructor.
  - apply Manual.
    exists [track "u1" "a.en"; track "u2" "en-US"], [].
    repeat split. repeat constructor.
Defined.

(** The track list the pattern captures starts with its bracket. *)
Lemma track_list_text (data : jsstring) (m : match_array) :
  exec getVideoDetails_regex data = Some m -> exists t, capture m = Str (91 :: t).
Proof.
  intros H. apply exec_sound in H. destruct H as [_ M].
  apply matches_Seq_inv in M. destruct M as (t1 & t2 & c1 & _ & _ & G).
  apply matches_Group_inv in G. destruct G as (E & c2 & M).
  apply matches_Seq_inv in M. destruct M as (t3 & t4 & c3 & Et & B & _).
  apply matches_Class_inv in B. destruct B as (x & Ex & Hx & _).
  unfold only in Hx. apply N.eqb_eq in Hx.
  unfold capture. rewrite E, Et, Ex, Hx. simpl. eauto.
Qed.

(** So what [JSON.parse] makes of it, when it makes something, is an array. *)
Lemma track_list_array (data : jsstring) (m : match_array) (v : value) :
  exec getVideoDetails_regex data = Some m ->
  JSON_parse_value (capture m) = Ok v ->
  exists tracks, v = Arr tracks.
Proof.
  intros Hm Hp. destruct (track_list_text _ Hm) as [t Et].
  rewrite Et in Hp. now apply JSON_parse_array in Hp.
Qed.

(** ** The caption stage, on a fetched page *)

Lemma and_capture_truthy (m : option match_array) :
  truthy (and_capture m) = true -> exists x s, and_capture m = Str (x :: s).
Proof.
  unfold and_capture, capture. destruct m as [a|]; [|discriminate].
  destruct (group1 a) as [[|x s]|]; try discriminate. eauto.
Qed.

Lemma page_description_text (data : jsstring) :
  exists x s, page_description data = Str (x :: s).
Proof.
  unfold page_description.
  destruct (truthy (and_capture (exec getVideoDetails_descriptionRegex data))) eqn:H.
  - now apply and_capture_truthy.
  - now exists 78, (lit "o description found").
Qed.

Section CaptionStage.
Variable Agent : Type.
Variable HttpsProxyAgent : jsstring -> result Agent.
Variable NodeFetch : jsstring -> Agent -> result Response.
Variable fetch : value -> result Response.
Variable he_decode : jsstring -> jsstring.
Variable striptags : jsstring -> jsstring.

Local Abbreviation details := (getVideoDetails HttpsProxyAgent NodeFetch fetch he_decode striptags).
Local Abbreviation subs := (getSubtitles HttpsProxyAgent NodeFetch fetch he_decode striptags).
Local Abbreviation markup := (page_markup HttpsProxyAgent NodeFetch fetch).

Lemma subs_page (options : Options) (lines : list Subtitle) :
  subs options = Ok lines -> exists data, markup options = Ok data.
Proof.
  unfold page_markup, page_response, getSubtitles, bind. cbv zeta.
  destruct (if string_truthy (proxyURL options) then _ else _) as [response|e];
    [|discriminate].
  destruct (body response) as [data|]; [|discriminate]. eauto.
Qed.

Lemma subs_on_page (options : Options) (data : jsstring) :
  markup options = Ok data ->
  subs options =
  if negb (includes data (lit "captionTracks")) then Ok [] else
  match exec getVideoDetails_regex data with
  | None => Ok []
  | Some m =>
      captionTracks <- JSON_parse_value (capture m) ;;
      subtitle <- (match captionTracks with
                   | Arr tracks => getVideoDetails_subtitle tracks (language options)
                   | _ => Throw TypeError
                   end) ;;
      baseUrl <- (match subtitle with
                  | Undefined | Null => Ok Undefined
                  | _ => get subtitle (lit "baseUrl")
                  end) ;;
      if negb (truthy baseUrl) then Ok [] else
      response <- fetch baseUrl ;;
      transcript <- body response ;;
      Ok (getVideoDetails_lines he_decode striptags transcript)
  end.
Proof.
  unfold page_markup, page_response, getSubtitles, bind. cbv zeta. intros Hpage.
  destruct (if string_truthy (proxyURL options) then _ else _) as [response|e];
    [|discriminate].
  rewrite Hpage. reflexivity.
Qed.

(** Every guarded exit gives the empty sequence. *)
Lemma subs_no_track (options : Options) (data : jsstring) :
  markup options = Ok data ->
  no_track data (language options) ->
  subs options = Ok [].
Proof.
  intros Hpage Hexit. rewrite (subs_on_page options Hpage).
  destruct (negb (includes data (lit "captionTracks"))) eqn:Hmarker; [reflexivity|].
  destruct Hexit as [H|H|m tracks Hm Hp Hs|m tracks subtitle baseUrl Hm Hp Hs Hg Hb].
  - rewrite H in Hmarker. discriminate.
  - now rewrite H.
  - rewrite Hm, Hp. cbn [bind]. rewrite Hs. reflexivity.
  - rewrite Hm, Hp. cbn [bind]. rewrite Hs. cbn [bind].
    destruct subtitle; try reflexivity; rewrite Hg; cbn [bind]; now rewrite Hb.
Qed.

(** Every failure of the caption stage is one of [caption_failure]. *)
Lemma subs_failure (options : Options) (data : jsstring) (e : exn) :
  markup options = Ok data ->
  subs options = Throw e ->
  includes data (lit "captionTracks") = true /\
  caption_failure fetch data (language options) e.
Proof.
  intros Hpage. rewrite (subs_on_page options Hpage).
  destruct (includes data (lit "captionTracks")); [|discriminate]. cbn [negb].
  destruct (exec getVideoDetails_regex data) as [m|] eqn:Hm; [|discriminate].
  intros H. split; [reflexivity|].
  destruct (JSON_parse_value (capture m)) as [v|e1] eqn:Hp; cbn [bind] in H.
  2:{ inversion H; subst. eapply parse_throws; eauto. }
  destruct (track_list_array _ Hm Hp) as [tracks ->].
  destruct (getVideoDetails_subtitle tracks (language options)) as [subtitle|e1] eqn:Hs;
    cbn [bind] in H.
  2:{ inversion H; subst. eapply selection_throws; eauto. }
  assert (Hread : forall baseUrl,
             get subtitle (lit "baseUrl") = Ok baseUrl ->
             (if negb (truthy baseUrl) then Ok []
              else response <- fetch baseUrl ;;
                   transcript <- body response ;;
                   Ok (getVideoDetails_lines he_decode striptags transcript)) = Throw e ->
             caption_failure fetch data (language options) e).
  { intros baseUrl Hg Hrest.
    destruct (truthy baseUrl) eqn:Hb; [|discriminate]. cbn [negb] in Hrest.
    destruct (fetch baseUrl) as [response|e1] eqn:Hf; cbn [bind] in Hrest.
    - destruct (body response) as [transcript|e2] eqn:Ht; [discriminate|].
      inversion Hrest; subst. eapply text_throws; eauto.
    - inversion Hrest; subst. eapply fetch_throws; eauto. }
  destruct subtitle; cbn [bind truthy negb] in H; try discriminate;
    (destruct (get _ (lit "baseUrl")) as [baseUrl|e1] eqn:Hg;
     [cbn [bind] in H; eapply Hread; eauto | simpl in Hg; discriminate]).
Qed.

(** What [getSubtitles] returns is empty or the lines of a document. *)
Lemma subs_result (options : Options) (lines : list Subtitle) :
  subs options = Ok lines ->
  lines = [] \/ exists transcript, lines = getVideoDetails_lines he_decode striptags transcript.
Proof.
  intros H. destruct (subs_page options H) as [data Hpage].
  rewrite (subs_on_page options Hpage) in H.
  destruct (negb (includes data (lit "captionTracks"))); [inversion H; auto|].
  destruct (exec getVideoDetails_regex data) as [m|]; [|inversion H; auto].
  destruct (JSON_parse_value (capture m)) as [v|]; [|discriminate]. cbn [bind] in H.
  destruct (match v with Arr tracks => _ | _ => Throw TypeError end) as [subtitle|];
    [|discriminate]. cbn [bind] in H.
  destruct (match subtitle with Undefined | Null => Ok Undefined | _ => _ end) as [baseUrl|];
    [|discriminate]. cbn [bind] in H.
  destruct (negb (truthy baseUrl)); [inversion H; auto|].
  destruct (fetch baseUrl) as [response|]; [|discriminate]. cbn [bind] in H.
  destruct (body response) as [transcript|]; [|discriminate]. cbn [bind] in H.
  inversion H. eauto.
Qed.
End CaptionStage.

(** ** The claims about the two operations *)

Section Operations.
Variable Agent : Type.
Variable HttpsProxyAgent : jsstring -> result Agent.
Variable NodeFetch : jsstring -> Agent -> result Response.
Variable fetch : value -> result Response.
Variable he_decode : jsstring -> jsstring.
Variable striptags : jsstring -> jsstring.

Local Abbreviation details := (getVideoDetails HttpsProxyAgent NodeFetch fetch he_decode striptags).
Local Abbreviation subs := (getSubtitles HttpsProxyAgent NodeFetch fetch he_decode striptags).
Local Abbreviation markup := (page_markup HttpsProxyAgent NodeFetch fetch).

(** C2, as amended. After a successful page fetch, [getVideoDetails]
    fails with the error [No video found for: ] followed by the video
    identifier whenever the title pattern does not match or captures an
    empty title.  It is not the only failure: with a title, every other
    failure comes from the caption stage of a page that holds the marker,
    in one of the ways of [caption_failure]. *)
Theorem C2_failures_of_getVideoDetails :
  forall (options : Options) (data : jsstring),
    markup options = Ok data ->
    ((exec getVideoDetails_titleRegex data = None \/
      exists m, exec getVideoDetails_titleRegex data = Some m /\ capture m = Str []) ->
     details options = Throw (Error (lit "No video found for: " ++ videoID options)))
    /\ (truthy (page_title data) = true ->
        forall e, details options = Throw e ->
                  includes data (lit "captionTracks") = true /\
                  caption_failure fetch data (language options) e).
Proof.
  intros options data Hpage. rewrite (details_by_subs _ _ _ _ _ options Hpage). split.
  - intros Hno. replace (truthy (page_title data)) with false; [reflexivity|].
    unfold page_title. destruct Hno as [Hno|(m & Hm & Hc)].
    + now rewrite Hno.
    + rewrite Hm. simpl. now rewrite Hc.
  - intros Htitle e H. rewrite Htitle in H. cbn [negb] in H.
    destruct (subs options) as [lines|e1] eqn:Hsubs; [discriminate|].
    inversion H; subst. eapply subs_failure; eauto.
Qed.

(** C3, as amended. On a fetched page, each guarded exit of the caption
    stage (no marker, no track list after the marker, no track selected, a
    selected track without a truthy [baseUrl]) makes [getSubtitles] return
    the empty sequence and, when the page has a title, [getVideoDetails]
    return its title and description with the empty sequence. *)
Theorem C3_guarded_exits_are_empty :
  forall (options : Options) (data : jsstring),
    markup options = Ok data ->
    no_track data (language options) ->
    subs options = Ok []
    /\ (truthy (page_title data) = true ->
        details options =
        Ok {| title := page_title data; description := page_description data;
              subtitles := [] |}).
Proof.
  intros options data Hpage Hexit.
  assert (Hsubs : subs options = Ok []) by (eapply subs_no_track; eauto).
  split; [exact Hsubs|]. intros Htitle.
  rewrite (details_by_subs _ _ _ _ _ options Hpage), Htitle, Hsubs. reflexivity.
Qed.

(** C5. With the same inputs and the same upstream documents, the
    sequence [getSubtitles] returns is the [subtitles] field of what
    [getVideoDetails] returns: when [getVideoDetails] returns, so does
    [getSubtitles], with that sequence; and on a page with a title, when
    [getSubtitles] returns, [getVideoDetails] returns with that sequence.
    The two copies of the track-list pattern, of the track selection and
    of the document parser are equal. *)
Theorem C5_same_subtitles :
  forall options : Options,
    (forall vd, details options = Ok vd -> subs options = Ok (subtitles vd))
    /\ (forall data lines,
           markup options = Ok data -> truthy (page_title data) = true ->
           subs options = Ok lines ->
           exists vd, details options = Ok vd /\ subtitles vd = lines)
    /\ getSubtitles_regex = getVideoDetails_regex
    /\ (forall tracks lang,
           getSubtitles_subtitle tracks lang = getVideoDetails_subtitle tracks lang)
    /\ (forall transcript,
           getSubtitles_lines he_decode striptags transcript =
           getVideoDetails_lines he_decode striptags transcript).
Proof.
  intros options. split; [|split; [|split; [|split]]].
  - intros vd H. destruct (details_page _ _ _ _ _ _ H) as [data Hpage].
    rewrite (details_by_subs _ _ _ _ _ options Hpage) in H.
    destruct (negb (truthy (page_title data))); [discriminate|].
    destruct (subs options) as [lines|]; [|discriminate].
    inversion H; reflexivity.
  - intros data lines Hpage Htitle Hsubs.
    rewrite (details_by_subs _ _ _ _ _ options Hpage), Htitle, Hsubs.
    eexists; split; reflexivity.
  - exact regex_same.
  - exact subtitle_same.
  - apply lines_same.
Qed.

(** C7, as amended. On a fetched page without the marker
    [captionTracks], [getSubtitles] returns the empty sequence;
    [getVideoDetails] returns the empty sequence with a non-empty title and
    a non-empty description when the page has a title, and fails with the
    title error when it has none. *)
Theorem C7_page_without_marker :
  forall (options : Options) (data : jsstring),
    markup options = Ok data ->
    includes data (lit "captionTracks") = false ->
    subs options = Ok []
    /\ (truthy (page_title data) = true ->
        exists x t y d,
          details options =
          Ok {| title := Str (x :: t); description := Str (y :: d); subtitles := [] |})
    /\ (truthy (page_title data) = false ->
        details options = Throw (Error (lit "No video found for: " ++ videoID options))).
Proof.
  intros options data Hpage Hmarker.
  assert (Hsubs : subs options = Ok []).
  { eapply subs_no_track; eauto. now apply no_marker. }
  split; [exact Hsubs|]. rewrite (details_by_subs _ _ _ _ _ options Hpage). split.
  - intros Htitle. rewrite Htitle, Hsubs. cbn [negb bind].
    destruct (and_capture_truthy _ Htitle) as (x & t & Et).
    destruct (page_description_text data) as (y & d & Ed).
    exists x, t, y, d. unfold page_title. now rewrite Et, Ed.
  - intros Htitle. now rewrite Htitle.
Qed.

(** C9. On a fetched page in which the description pattern does not
    match, the description [getVideoDetails] returns is exactly the string
    [No description found]; and with a title it does return, whenever the
    caption stage does. *)
Theorem C9_missing_description :
  forall (options : Options) (data : jsstring),
    markup options = Ok data ->
    exec getVideoDetails_descriptionRegex data = None ->
    (forall vd, details options = Ok vd ->
                description vd = Str (lit "No description found"))
    /\ (truthy (page_title data) = true ->
        forall lines, subs options = Ok lines ->
                      details options =
                      Ok {| title := page_title data;
                            description := Str (lit "No description found");
                            subtitles := lines |}).
Proof.
  intros options data Hpage Hdesc.
  assert (Ed : page_description data = Str (lit "No description found")).
  { unfold page_description. now rewrite Hdesc. }
  rewrite (details_by_subs _ _ _ _ _ options Hpage), Ed. split.
  - intros vd H. destruct (negb (truthy (page_title data))); [discriminate|].
    destruct (subs options) as [lines|]; [|discriminate].
    inversion H; reflexivity.
  - intros Htitle lines Hsubs. now rewrite Htitle, Hsubs.
Qed.

(** C10. Every subtitle line either operation returns has a [start] and
    a [dur] that are non-empty strings of decimal digits and full stops. *)
Theorem C10_numeric_attributes :
  forall options : Options,
    (forall lines,
        subs options = Ok lines ->
        Forall (fun line => numeric_text (start line) = true /\
                            numeric_text (dur line) = true) lines)
    /\ (forall vd,
           details options = Ok vd ->
           Forall (fun line => numeric_text (start line) = true /\
                               numeric_text (dur line) = true) (subtitles vd)).
Proof.
  intros options.
  assert (Hsubs : forall lines,
             subs options = Ok lines ->
             Forall (fun line => numeric_text (start line) = true /\
                                 numeric_text (dur line) = true) lines).
  { intros lines H. apply subs_result in H. destruct H as [->|[transcript ->]].
    - constructor.
    - apply lines_numeric. }
  split; [exact Hsubs|].
  intros vd H. apply Hsubs.
  destruct (details_page _ _ _ _ _ _ H) as [data Hpage].
  rewrite (details_by_subs _ _ _ _ _ options Hpage) in H.
  destruct (negb (truthy (page_title data))); [discriminate|].
  destruct (subs options) as [lines|]; [|discriminate].
  inversion H; reflexivity.
Qed.
End Operations.

(** ** The claims about the caption document parser *)

(** C4. From the document whose only segment is
    [<text start=`0.5` dur=`2.3`>Hello &amp;amp; world</text>] between the
    prolog and the closing root tag, the parser makes exactly one line,
    with start [0.5], dur [2.3] and the text [Hello & world]: the source's
    own replacement leaves [Hello &amp; world], which [he.decode] turns
    into [Hello & world], a text without tags that [striptags] keeps.  The
    two facts about the libraries are the hypotheses. *)
Theorem C4_hello_document :
  forall he_decode striptags : jsstring -> jsstring,
    he_decode (lit "Hello &amp; world") = lit "Hello & world" ->
    striptags (lit "Hello & world") = lit "Hello & world" ->
    getVideoDetails_lines he_decode striptags hello_document = [hello_line].
Proof.
  intros he_decode striptags Hdecode Hstrip.
  rewrite lines_map_filter.
  assert (E : filter extractable (filter nonblank (fragments hello_document))
              = [lit "<text start=`0.5` dur=`2.3`>Hello &amp;amp; world"])
    by (vm_compute; reflexivity).
  rewrite E. vm_compute. vm_compute in Hdecode, Hstrip.
  rewrite Hdecode. do 2 f_equal. exact Hstrip.
Qed.

Lemma C4_witness :
  getVideoDetails_lines decode_xml_entities strip_all_tags hello_document = [hello_line].
Proof.
  apply C4_hello_document; vm_compute; reflexivity.
Defined.

(** C8. The parser returns, for every document, the lines of the
    fragments in which both attribute patterns find a value, in the order
    of the fragments; the other fragments are left out and nothing fails.
    So a document with two non-blank fragments of which exactly one has
    both attributes gives a sequence of length 1. *)
Theorem C8_malformed_lines_are_skipped :
  forall (he_decode striptags : jsstring -> jsstring) (transcript : jsstring),
    getVideoDetails_lines he_decode striptags transcript =
    map (pushed he_decode striptags)
        (filter extractable (filter nonblank (fragments transcript)))
    /\ (forall a b,
           filter nonblank (fragments transcript) = [a; b] ->
           xorb (extractable a) (extractable b) = true ->
           length (getVideoDetails_lines he_decode striptags transcript) = 1%nat).
Proof.
  intros he_decode striptags transcript. split.
  - apply lines_map_filter.
  - intros a b Hfragments Hone. rewrite lines_map_filter, Hfragments, length_map.
    cbn [filter]. destruct (extractable a), (extractable b); try discriminate; reflexivity.
Qed.

Lemma C8_witness :
  getVideoDetails_lines decode_xml_entities strip_all_tags mixed_document = [kept_line]
  /\ length (getVideoDetails_lines decode_xml_entities strip_all_tags mixed_document) = 1%nat.
Proof.
  destruct (C8_malformed_lines_are_skipped decode_xml_entities strip_all_tags mixed_document)
    as [Hlines Hlength].
  split.
  - rewrite Hlines. vm_compute. reflexivity.
  - apply (Hlength (lit "<text start=`1` dur=`2`>kept") (lit "<text start=`3`>dropped"));
      vm_compute; reflexivity.
Defined.

(** C6, evaluated. The pattern of the loose rule is compiled from the dot
    followed by the language, so its dot stands for any code unit that is
    no line terminator: on a track whose [vssId] is a non-empty string the
    rule tests [wild_includes], which every identifier that contains the
    literal text passes, and others too.  The identifier [xen] does not
    contain [.en], yet for the language [en] the loose rule selects the
    track with that identifier, in both operations, and its document is
    fetched. *)
Theorem C6_loose_rule_dot_matches_any_unit :
  (forall (lang : jsstring) (props : list (jsstring * value)) (x : code_unit) (s : jsstring),
      existsb is_syntax_character lang = false ->
      lookup (lit "vssId") props = Some (Str (x :: s)) ->
      loose_rule lang (Obj props) = Ok (wild_includes (x :: s) (lit "." ++ lang)))
  /\ (forall s p : jsstring, includes s p = true -> wild_includes s p = true)
  /\ includes (lit "xen") (lit ".en") = false
  /\ wild_includes (lit "xen") (lit ".en") = true
  /\ loose_rule (lit "en") (track "u4" "xen") = Ok true
  /\ getVideoDetails_subtitle [track "u4" "xen"] (lit "en") = Ok (track "u4" "xen")
  /\ getSubtitles_subtitle [track "u4" "xen"] (lit "en") = Ok (track "u4" "xen")
  /\ sample_getSubtitles web (request "xen") = Ok [kept_line].
Proof.
  split; [exact loose_rule_test|]. split; [exact includes_wild|].
  repeat split; vm_compute; reflexivity.
Qed.

(** ** The claims about the operations, on the sample web *)

Lemma C2_counterexample :
  page_title null_track_page = Str (lit "A video")
  /\ sample_getVideoDetails web (request "nulltrack") = Throw TypeError.
Proof. split; vm_compute; reflexivity. Qed.

Lemma C2_witness :
  sample_getVideoDetails web (request "emptytitle")
  = Throw (Error (lit "No video found for: emptytitle")).
Proof.
  destruct (@C2_failures_of_getVideoDetails unit no_agent (serve_through web) (serve web)
              decode_xml_entities strip_all_tags (request "emptytitle") empty_title_page)
    as [Htitle _].
  - vm_compute. reflexivity.
  - apply Htitle. right. eexists. split; vm_compute; reflexivity.
Defined.

Lemma C3_counterexample :
  page_title garbled_page = Str (lit "A video")
  /\ sample_getSubtitles web (request "garbled") = Throw SyntaxError
  /\ sample_getVideoDetails web (request "garbled") = Throw SyntaxError.
Proof. repeat split; vm_compute; reflexivity. Qed.

Lemma C3_witness :
  sample_getSubtitles web (request "french") = Ok []
  /\ sample_getVideoDetails web (request "french")
     = Ok {| title := Str (lit "A video"); description := Str (lit "No description found");
             subtitles := [] |}.
Proof.
  destruct (@C3_guarded_exits_are_empty unit no_agent (serve_through web) (serve web)
              decode_xml_entities strip_all_tags (request "french") french_page)
    as [Hsubs Hdetails].
  - vm_compute. reflexivity.
  - eapply nothing_selected; vm_compute; reflexivity.
  - split; [exact Hsubs|].
    unfold sample_getVideoDetails. rewrite Hdetails; vm_compute; reflexivity.
Defined.

Lemma C5_witness :
  sample_getSubtitles web (request "english") = Ok [hello_line].
Proof.
  destruct (@C5_same_subtitles unit no_agent (serve_through web) (serve web)
              decode_xml_entities strip_all_tags (request "english")) as [Hsame _].
  apply (Hsame {| title := Str (lit "A video");
                  description := Str (lit "No description found");
                  subtitles := [hello_line] |}).
  vm_compute. reflexivity.
Defined.

Lemma C7_counterexample :
  includes untitled_page (lit "captionTracks") = false
  /\ sample_getVideoDetails web (request "untitled")
     = Throw (Error (lit "No video found for: untitled")).
Proof. split; vm_compute; reflexivity. Qed.

Lemma C7_witness :
  sample_getSubtitles web (request "plain") = Ok []
  /\ exists x t y d,
      sample_getVideoDetails web (request "plain")
      = Ok {| title := Str (x :: t); description := Str (y :: d); subtitles := [] |}.
Proof.
  destruct (@C7_page_without_marker unit no_agent (serve_through web) (serve web)
              decode_xml_entities strip_all_tags (request "plain") plain_page)
    as (Hsubs & Hdetails & _).
  - vm_compute. reflexivity.
  - vm_compute. reflexivity.
  - split; [exact Hsubs|]. apply Hdetails. vm_compute. reflexivity.
Defined.

Lemma C9_witness :
  sample_getVideoDetails web (request "english")
  = Ok {| title := Str (lit "A video"); description := Str (lit "No description found");
          subtitles := [hello_line] |}.
Proof.
  destruct (@C9_missing_description unit no_agent (serve_through web) (serve web)
              decode_xml_entities strip_all_tags (request "english") english_page)
    as [_ Hreturns].
  - vm_compute. reflexivity.
  - vm_compute. reflexivity.
  - unfold sample_getVideoDetails. rewrite (Hreturns eq_refl [hello_line]).
    + vm_compute. reflexivity.
    + vm_compute. reflexivity.
Defined.

Lemma C10_witness :
  Forall (fun line => numeric_text (start line) = true /\ numeric_text (dur line) = true)
         [hello_line].
Proof.
  destruct (@C10_numeric_attributes unit no_agent (serve_through web) (serve web)
              decode_xml_entities strip_all_tags (request "english")) as [Hsubs _].
  apply Hsubs. vm_compute. reflexivity.
Defined.

(** ** The operations, stage by stage *)

Section Stages.
Variable Agent : Type.
Variable HttpsProxyAgent : jsstring -> result Agent.
Variable NodeFetch : jsstring -> Agent -> result Response.
Variable fetch : value -> result Response.
Variable he_decode : jsstring -> jsstring.
Variable striptags : jsstring -> jsstring.

Local Abbreviation details := (getVideoDetails HttpsProxyAgent NodeFetch fetch he_decode striptags).
Local Abbreviation subs := (getSubtitles HttpsProxyAgent NodeFetch fetch he_decode striptags).
Local Abbreviation markup := (page_markup HttpsProxyAgent NodeFetch fetch).

Lemma subs_by_stage (options : Options) :
  subs options =
  data <- markup options ;;
  caption_stage fetch he_decode striptags (language options) data.
Proof.
  unfold page_markup, page_response, getSubtitles, caption_stage, fetch_text, language, bind.
  cbv zeta.
  destruct (if string_truthy (proxyURL options) then _ else _) as [response|e];
    [|reflexivity].
  destruct (body response) as [data|]; [|reflexivity].
  destruct (negb (includes data (lit "captionTracks"))); [reflexivity|].
  destruct (exec getSubtitles_regex data) as [regexResult|]; [|reflexivity].
  destruct (JSON_parse_value (capture regexResult)) as [captionTracks|]; [|reflexivity].
  destruct (match captionTracks with Arr tracks => _ | _ => Throw TypeError end)
    as [subtitle|]; [|reflexivity].
  destruct (match subtitle with Undefined | Null => Ok Undefined | _ => _ end) as [baseUrl|];
    [|reflexivity].
  destruct (negb (truthy baseUrl)); [reflexivity|].
  destruct (fetch baseUrl) as [subtitlesResponse|]; [|reflexivity].
  destruct (body subtitlesResponse); reflexivity.
Qed.

Lemma details_by_stage (options : Options) :
  details options =
  data <- markup options ;;
  if negb (truthy (page_title data))
  then Throw (Error (lit "No video found for: " ++ videoID options))
  else lines <- caption_stage fetch he_decode striptags (language options) data ;;
       Ok {| title := page_title data; description := page_description data;
             subtitles := lines |}.
Proof.
  destruct (markup options) as [data|e] eqn:Hpage.
  - rewrite (details_by_subs _ _ _ _ _ options Hpage), subs_by_stage, Hpage. reflexivity.
  - revert Hpage.
    unfold page_markup, page_response, getVideoDetails, bind. cbv zeta.
    destruct (if string_truthy (proxyURL options) then _ else _) as [response|e'].
    + intros ->. reflexivity.
    + intros H. inversion H. reflexivity.
Qed.
End Stages.


(** ** The network *)

Section Network.
Variable Agent : Type.
Variable HttpsProxyAgent : jsstring -> result Agent.
Variable NodeFetch : jsstring -> Agent -> result Response.
Variable fetch : value -> result Response.
Variable he_decode : jsstring -> jsstring.
Variable striptags : jsstring -> jsstring.

Local Abbreviation details := (getVideoDetails HttpsProxyAgent NodeFetch fetch he_decode striptags).
Local Abbreviation subs := (getSubtitles HttpsProxyAgent NodeFetch fetch he_decode striptags).
Local Abbreviation markup := (page_markup HttpsProxyAgent NodeFetch fetch).

Lemma markup_failure (options : Options) (e : exn) :
  markup options = Throw e -> subs options = Throw e /\ details options = Throw e.
Proof.
  intros H. rewrite subs_by_stage, details_by_stage, H. split; reflexivity.
Qed.

(** X1. A proxied request hands back a response only when the agent was
    built, [node-fetch] answered and the answer is marked ok; when it
    fails, the failure is the agent's own or the one message that names
    the target and the proxy. *)
Theorem X1_fetchThroughProxy_outcomes :
  forall targetUrl proxyUrl : jsstring,
    (forall response,
        fetchThroughProxy HttpsProxyAgent NodeFetch targetUrl proxyUrl = Ok response ->
        ok response = true /\
        exists agent, HttpsProxyAgent proxyUrl = Ok agent /\
                      NodeFetch targetUrl agent = Ok response)
    /\ (forall e,
           fetchThroughProxy HttpsProxyAgent NodeFetch targetUrl proxyUrl = Throw e ->
           HttpsProxyAgent proxyUrl = Throw e \/ e = proxy_failure targetUrl proxyUrl).
Proof.
  intros targetUrl proxyUrl. unfold fetchThroughProxy, proxy_failure, bind.
  destruct (HttpsProxyAgent proxyUrl) as [agent|e0].
  - destruct (NodeFetch targetUrl agent) as [r|e1] eqn:Hf.
    + destruct (ok r) eqn:Hok; split; intros x H; inversion H; subst; eauto.
    + split; intros x H; inversion H; subst; eauto.
  - split; intros x H; inversion H; subst; eauto.
Qed.

(** X3. How a failed page request ends both operations: a direct request
    that fails, or whose [text()] fails, passes its error on unchanged; a
    proxy agent that cannot be built passes its error on unchanged; a
    proxied request that fails or is answered with a response not marked
    ok ends in the message that names the watch page and the proxy. *)
Theorem X3_page_request_failures :
  forall options : Options,
    (string_truthy (proxyURL options) = false ->
     forall e, fetch_text fetch (Str (watch_url (videoID options))) = Throw e ->
               subs options = Throw e /\ details options = Throw e)
    /\ (string_truthy (proxyURL options) = true ->
        forall e, HttpsProxyAgent (string_or_empty (proxyURL options)) = Throw e ->
                  subs options = Throw e /\ details options = Throw e)
    /\ (string_truthy (proxyURL options) = true ->
        forall agent,
          HttpsProxyAgent (string_or_empty (proxyURL options)) = Ok agent ->
          match NodeFetch (watch_url (videoID options)) agent with
          | Ok response => ok response = false
          | Throw _ => True
          end ->
          subs options =
          Throw (proxy_failure (watch_url (videoID options))
                               (string_or_empty (proxyURL options)))
          /\ details options =
             Throw (proxy_failure (watch_url (videoID options))
                                  (string_or_empty (proxyURL options)))).
Proof.
  intros options. split; [|split]; intros Hproxy.
  - intros e H. apply markup_failure.
    unfold page_markup, page_response. rewrite Hproxy. exact H.
  - intros e H. apply markup_failure.
    unfold page_markup, page_response, fetchThroughProxy. rewrite Hproxy.
    fold (watch_url (videoID options)). rewrite H. reflexivity.
  - intros agent Hagent Hfetch. apply markup_failure.
    unfold page_markup, page_response, fetchThroughProxy, proxy_failure. rewrite Hproxy.
    fold (watch_url (videoID options)). rewrite Hagent. cbn [bind].
    destruct (NodeFetch (watch_url (videoID options)) agent) as [r|e1]; [|reflexivity].
    rewrite Hfetch. reflexivity.
Qed.
End Network.

(** X2. The proxy serves one request at most, the one for the watch
    page, and only when [proxyURL] is a non-empty string: two sets of proxy
    collaborators that answer that request alike give the same results,
    and without a proxy address any two do.  The caption document is
    always requested directly. *)
Theorem X2_proxy_only_for_the_watch_page :
  forall (Agent Agent' : Type)
         (HttpsProxyAgent : jsstring -> result Agent)
         (NodeFetch : jsstring -> Agent -> result Response)
         (HttpsProxyAgent' : jsstring -> result Agent')
         (NodeFetch' : jsstring -> Agent' -> result Response)
         (fetch : value -> result Response)
         (he_decode striptags : jsstring -> jsstring) (options : Options),
    (string_truthy (proxyURL options) = true ->
     fetchThroughProxy HttpsProxyAgent NodeFetch
       (watch_url (videoID options)) (string_or_empty (proxyURL options))
     = fetchThroughProxy HttpsProxyAgent' NodeFetch'
         (watch_url (videoID options)) (string_or_empty (proxyURL options))) ->
    getSubtitles HttpsProxyAgent NodeFetch fetch he_decode striptags options
    = getSubtitles HttpsProxyAgent' NodeFetch' fetch he_decode striptags options
    /\ getVideoDetails HttpsProxyAgent NodeFetch fetch he_decode striptags options
       = getVideoDetails HttpsProxyAgent' NodeFetch' fetch he_decode striptags options.
Proof.
  intros Agent Agent' HPA NF HPA' NF' fetch he_decode striptags options Hsame.
  assert (E : page_markup HPA NF fetch options = page_markup HPA' NF' fetch options).
  { unfold page_markup, page_response.
    destruct (string_truthy (proxyURL options)); [|reflexivity].
    unfold watch_url in Hsame. now rewrite Hsame. }
  rewrite !subs_by_stage, !details_by_stage, E. split; reflexivity.
Qed.

(** X4. Of a direct response the operations use the text only: two
    networks whose direct responses have the same text, whatever their
    status, give the same results.  So a watch page or a caption document
    answered with a failure status is scraped like any other. *)
Theorem X4_direct_responses_count_by_their_text :
  forall (Agent : Type)
         (HttpsProxyAgent : jsstring -> result Agent)
         (NodeFetch : jsstring -> Agent -> result Response)
         (fetch fetch' : value -> result Response)
         (he_decode striptags : jsstring -> jsstring) (options : Options),
    (forall input, fetch_text fetch input = fetch_text fetch' input) ->
    getSubtitles HttpsProxyAgent NodeFetch fetch he_decode striptags options
    = getSubtitles HttpsProxyAgent NodeFetch fetch' he_decode striptags options
    /\ getVideoDetails HttpsProxyAgent NodeFetch fetch he_decode striptags options
       = getVideoDetails HttpsProxyAgent NodeFetch fetch' he_decode striptags options.
Proof.
  intros Agent HPA NF fetch fetch' he_decode striptags options Hsame.
  assert (E : page_markup HPA NF fetch options = page_markup HPA NF fetch' options).
  { unfold page_markup, page_response.
    destruct (string_truthy (proxyURL options)); [reflexivity|]. apply Hsame. }
  assert (S : forall lang data,
             caption_stage fetch he_decode striptags lang data
             = caption_stage fetch' he_decode striptags lang data).
  { intros lang data. unfold caption_stage.
    destruct (negb (includes data (lit "captionTracks"))); [reflexivity|].
    destruct (exec getSubtitles_regex data) as [m|]; [|reflexivity].
    destruct (JSON_parse_value (capture m)) as [v|]; [|reflexivity]. cbn [bind].
    destruct (match v with Arr tracks => _ | _ => Throw TypeError end) as [subtitle|];
      [|reflexivity]. cbn [bind].
    destruct (match subtitle with Undefined | Null => Ok Undefined | _ => _ end)
      as [baseUrl|]; [|reflexivity]. cbn [bind].
    now rewrite Hsame. }
  rewrite !subs_by_stage, !details_by_stage, E.
  destruct (page_markup HPA NF fetch' options) as [data|]; [|split; reflexivity].
  cbn [bind]. rewrite S. split; reflexivity.
Qed.

(** ** The route handler *)

Section RouteFacts.
Variable Agent : Type.
Variable HttpsProxyAgent : jsstring -> result Agent.
Variable NodeFetch : jsstring -> Agent -> result Response.
Variable fetch : value -> result Response.
Variable he_decode : jsstring -> jsstring.
Variable striptags : jsstring -> jsstring.
Variable engine_message : exn -> jsstring.

Local Abbreviation details := (getVideoDetails HttpsProxyAgent NodeFetch fetch he_decode striptags).
Local Abbreviation subs := (getSubtitles HttpsProxyAgent NodeFetch fetch he_decode striptags).
Local Abbreviation route :=
  (GET HttpsProxyAgent NodeFetch fetch he_decode striptags engine_message).

Lemma GET_unfold (searchParams : list (jsstring * jsstring)) :
  route searchParams =
  if negb (string_truthy (searchParams_get searchParams (lit "videoID")))
  then {| json := error_body (lit "Missing videoID"); status := 400 |}
  else match subs (route_options searchParams) with
       | Throw error => {| json := error_body (message engine_message error); status := 500 |}
       | Ok subtitles =>
           match details (route_options searchParams) with
           | Throw error =>
               {| json := error_body (message engine_message error); status := 500 |}
           | Ok videoDetails =>
               {| json := result_body subtitles videoDetails; status := 200 |}
           end
       end.
Proof.
  unfold GET, route_options. cbv zeta.
  destruct (negb (string_truthy (searchParams_get searchParams (lit "videoID"))));
    [reflexivity|].
  unfold bind.
  destruct (getSubtitles _ _ _ _ _ _) as [subtitles|]; [|reflexivity].
  destruct (getVideoDetails _ _ _ _ _ _) as [videoDetails|]; reflexivity.
Qed.

(** When [getVideoDetails] returns, [getSubtitles] returns its subtitles. *)
Lemma details_returns (options : Options) (vd : VideoDetails) :
  details options = Ok vd -> subs options = Ok (subtitles vd).
Proof.
  rewrite details_by_stage, subs_by_stage.
  destruct (page_markup _ _ _ _) as [data|]; [|discriminate]. cbn [bind].
  destruct (negb (truthy (page_title data))); [discriminate|].
  destruct (caption_stage _ _ _ _ _) as [lines|]; [|discriminate].
  intros H; inversion H; reflexivity.
Qed.

(** When [getSubtitles] returns, [getVideoDetails] returns or fails for
    the title. *)
Lemma subs_returns (options : Options) (lines : list Subtitle) :
  subs options = Ok lines ->
  (exists vd, details options = Ok vd /\ subtitles vd = lines)
  \/ details options = Throw (Error (lit "No video found for: " ++ videoID options)).
Proof.
  rewrite details_by_stage, subs_by_stage.
  destruct (page_markup _ _ _ _) as [data|]; [|discriminate]. cbn [bind].
  intros ->. destruct (negb (truthy (page_title data))); [now right|].
  left. eexists; split; reflexivity.
Qed.



End RouteFacts.

(** ** What the page patterns capture *)

Lemma matches_Empty_inv t s c c' : matches Empty t s c c' -> t = [] /\ c' = c.
Proof. intros M. inversion M; subst. auto. Qed.

Lemma matches_Alt_inv r1 r2 t s c c' :
  matches (Alt r1 r2) t s c c' -> matches r1 t s c c' \/ matches r2 t s c c'.
Proof. intros M. inversion M; subst; auto. Qed.

Lemma matches_LazyStar_inv p t s c c' :
  matches (LazyStar p) t s c c' -> Forall (fun x => p x = true) t /\ c' = c.
Proof. intros M. inversion M; subst. auto. Qed.

(** A literal text matches itself only. *)
Lemma matches_chars (p t s : jsstring) (c c' : option jsstring) :
  matches (chars p) t s c c' -> t = p /\ c' = c.
Proof.
  revert t c c'. induction p as [|x p IH]; intros t c c' M; simpl in M.
  - now apply matches_Empty_inv in M.
  - apply matches_Seq_inv in M. destruct M as (t1 & t2 & c1 & -> & M1 & M2).
    apply matches_Class_inv in M1. destruct M1 as (y & -> & Hy & ->).
    apply IH in M2. destruct M2 as [-> ->].
    unfold only in Hy. apply N.eqb_eq in Hy. subst y. auto.
Qed.

Lemma except_all (c : code_unit) (t : jsstring) :
  Forall (fun x => except c x = true) t -> Forall (fun x => x <> c) t.
Proof.
  apply Forall_impl. intros x H. unfold except in H.
  apply negb_true_iff in H. now apply N.eqb_neq in H.
Qed.

(** What a meta pattern finds: the tag is in the page, and its content
    holds no double quote, or one, in front of [quot;]. *)
Lemma meta_capture (name data : jsstring) (m : match_array) :
  exec (Seq (chars (lit "<meta name=`" ++ name ++ lit "` content=`"))
            (Seq (Group (Alt (Star (except 34))
                             (Seq (Star (except 34))
                                  (Seq (Class (except 38))
                                       (Seq (chars (lit "quot;")) (Star (except 34)))))))
                 (chars (lit "`>"))))
       data = Some m ->
  exists t,
    capture m = Str t
    /\ occurs_at data (before m)
         (lit "<meta name=`" ++ name ++ lit "` content=`" ++ t ++ lit "`>") (after m)
    /\ (quote_free t \/
        exists a b, t = a ++ 34 :: lit "quot;" ++ b /\ quote_free a /\ quote_free b).
Proof.
  intros H. apply exec_sound in H. destruct H as [Hdata M].
  apply matches_Seq_inv in M. destruct M as (t1 & t2 & c1 & Ew & M1 & M).
  apply matches_chars in M1. destruct M1 as [-> ->].
  apply matches_Seq_inv in M. destruct M as (t & t3 & c2 & -> & G & M3).
  apply matches_chars in M3. destruct M3 as [-> Ec].
  apply matches_Group_inv in G. destruct G as (-> & c3 & A).
  exists t. unfold capture. rewrite Ec. split; [reflexivity|]. split.
  - unfold occurs_at. rewrite Hdata, Ew. now rewrite <- !app_assoc.
  - apply matches_Alt_inv in A. destruct A as [A|A].
    + apply matches_Star_inv in A. left. apply except_all. tauto.
    + apply matches_Seq_inv in A. destruct A as (a & u & c4 & -> & A1 & A).
      apply matches_Star_inv in A1. destruct A1 as [Ha _]. apply except_all in Ha.
      apply matches_Seq_inv in A. destruct A as (x1 & u2 & c5 & -> & A2 & A).
      apply matches_Class_inv in A2. destruct A2 as (x & -> & Hx & _).
      apply matches_Seq_inv in A. destruct A as (q & b & c6 & -> & A3 & A4).
      apply matches_chars in A3. destruct A3 as [-> _].
      apply matches_Star_inv in A4. destruct A4 as [Hb _]. apply except_all in Hb.
      destruct (N.eq_dec x 34) as [->|Hq].
      * right. exists a, b. repeat split; auto.
      * left. unfold quote_free. rewrite !Forall_app. repeat split; auto.
        repeat constructor; auto; discriminate.
Qed.

Section PageFacts.
Variable Agent : Type.
Variable HttpsProxyAgent : jsstring -> result Agent.
Variable NodeFetch : jsstring -> Agent -> result Response.
Variable fetch : value -> result Response.
Variable he_decode : jsstring -> jsstring.
Variable striptags : jsstring -> jsstring.

Local Abbreviation details := (getVideoDetails HttpsProxyAgent NodeFetch fetch he_decode striptags).
Local Abbreviation markup := (page_markup HttpsProxyAgent NodeFetch fetch).

Lemma details_metadata (options : Options) (data : jsstring) (vd : VideoDetails) :
  markup options = Ok data -> details options = Ok vd ->
  title vd = page_title data /\ description vd = page_description data
  /\ truthy (page_title data) = true.
Proof.
  intros Hpage. rewrite details_by_stage, Hpage. cbn [bind].
  destruct (truthy (page_title data)); [|discriminate]. cbn [negb].
  destruct (caption_stage _ _ _ _ _); [|discriminate].
  intros H; inversion H; auto.
Qed.

(** X8. The title [getVideoDetails] returns is read off the page: it is
    a non-empty string, the page holds the title meta tag with exactly this
    content, and the content holds no double quote, or one only, in front
    of [quot;]. *)
Theorem X8_title_is_on_the_page :
  forall (options : Options) (data : jsstring) (vd : VideoDetails),
    markup options = Ok data ->
    details options = Ok vd ->
    exists (x : code_unit) (t pre post : jsstring),
      title vd = Str (x :: t)
      /\ occurs_at data pre
           (lit "<meta name=`title` content=`" ++ (x :: t) ++ lit "`>") post
      /\ (quote_free (x :: t) \/
          exists a b, x :: t = a ++ 34 :: lit "quot;" ++ b /\ quote_free a /\ quote_free b).
Proof.
  intros options data vd Hpage Hd.
  destruct (details_metadata options Hpage Hd) as (Et & _ & Htruthy).
  unfold page_title in *.
  destruct (exec getVideoDetails_titleRegex data) as [m|] eqn:Hm; [|discriminate].
  destruct (meta_capture (lit "title") data Hm) as (t & Ec & Hocc & Hshape).
  cbn [and_capture] in *. rewrite Ec in *.
  destruct t as [|x t]; [discriminate|].
  exists x, t, (before m), (after m). auto.
Qed.

(** X9. The description [getVideoDetails] returns is never empty: it is
    the content of the description meta tag of the page when the pattern
    finds one with a content that is not empty, and the placeholder in
    every other case, an empty content included. *)
Theorem X9_description_is_never_empty :
  forall (options : Options) (data : jsstring) (vd : VideoDetails),
    markup options = Ok data ->
    details options = Ok vd ->
    exists (y : code_unit) (d : jsstring),
      description vd = Str (y :: d)
      /\ ((exists pre post,
              occurs_at data pre
                (lit "<meta name=`description` content=`" ++ (y :: d) ++ lit "`>") post)
          \/ (y :: d = lit "No description found"
              /\ forall m, exec getVideoDetails_descriptionRegex data = Some m ->
                           capture m = Str [])).
Proof.
  intros options data vd Hpage Hd.
  destruct (details_metadata options Hpage Hd) as (_ & Ed & _).
  rewrite Ed. unfold page_description.
  destruct (exec getVideoDetails_descriptionRegex data) as [m|] eqn:Hm.
  - destruct (meta_capture (lit "description") data Hm) as (t & Ec & Hocc & _).
    cbn [and_capture]. rewrite Ec. destruct t as [|y t]; cbn [truthy].
    + exists 78, (lit "o description found"). split; [reflexivity|]. right.
      split; [reflexivity|]. intros m' E. inversion E; subst. exact Ec.
    + exists y, t. split; [reflexivity|]. left. eauto.
  - cbn [and_capture truthy].
    exists 78, (lit "o description found"). split; [reflexivity|]. right.
    split; [reflexivity|]. discriminate.
Qed.
End PageFacts.

(** ** The track list *)

(** A lazy repetition stops at the first place where what follows can
    match: no earlier place passes the continuation. *)
Lemma star_lazy_first (A : Type) (p : code_unit -> bool) (s : jsstring)
      (k : jsstring -> option A) (a : A) :
  star_lazy p s k = Some a ->
  exists t s',
    s = t ++ s' /\ Forall (fun x => p x = true) t /\ k s' = Some a
    /\ forall t1 t2, t = t1 ++ t2 -> t2 <> [] -> k (t2 ++ s') = None.
Proof.
  induction s as [|x s IH]; simpl; intros H.
  - destruct (k []) eqn:Hk; [|discriminate]. inversion H; subst.
    exists [], []. repeat split; auto.
    intros t1 t2 E Hne. destruct t1, t2; try discriminate. congruence.
  - destruct (k (x :: s)) eqn:Hk.
    + inversion H; subst. exists [], (x :: s). repeat split; auto.
      intros t1 t2 E Hne. destruct t1, t2; try discriminate. congruence.
    + destruct (p x) eqn:Hp; [|discriminate].
      destruct (IH H) as (t & s' & -> & Ht & Hk' & Hfirst).
      exists (x :: t), s'. repeat split; auto.
      intros t1 t2 E Hne. destruct t1 as [|y t1]; simpl in E.
      * subst t2. exact Hk.
      * inversion E; subst. eapply Hfirst; eauto.
Qed.

Lemma run_chars (A : Type) (p : jsstring) :
  forall (s : jsstring) (c : option jsstring)
         (k : jsstring -> option jsstring -> option A),
    run (chars p) s c k = if starts_with p s then k (skipn (length p) s) c else None.
Proof.
  induction p as [|x p IH]; intros s c k; simpl; [reflexivity|].
  destruct s as [|y s]; [reflexivity|].
  unfold only. rewrite N.eqb_sym.
  destruct (N.eqb x y); simpl; [apply IH|reflexivity].
Qed.

Lemma starts_with_app (p s : jsstring) :
  starts_with p s = true -> s = p ++ skipn (length p) s.
Proof.
  revert s. induction p as [|x p IH]; intros s; simpl; [reflexivity|].
  destruct s as [|y s]; [discriminate|].
  intros H. apply andb_true_iff in H. destruct H as [Hx Hp].
  apply N.eqb_eq in Hx. subst y. f_equal. now apply IH.
Qed.

(** The track-list pattern at a place of the page: the marker, then the
    text from the bracket to the first closing bracket. *)
Lemma track_list_here (s rest : jsstring) (c : option jsstring) :
  match_here getVideoDetails_regex s = Some (rest, c) ->
  exists t,
    s = lit "`captionTracks`:" ++ 91 :: t ++ 93 :: rest
    /\ c = Some (91 :: t ++ [93])
    /\ Forall (fun x => x <> 93 /\ is_line_terminator x = false) t.
Proof.
  unfold match_here, getVideoDetails_regex. cbn [run]. rewrite run_chars.
  destruct (starts_with (lit "`captionTracks`:") s) eqn:Hmarker; [|discriminate].
  apply starts_with_app in Hmarker.
  remember (skipn (length (lit "`captionTracks`:")) s) as s0 eqn:E0. clear E0.
  destruct s0 as [|x s1]; [discriminate|].
  unfold only at 1. destruct (N.eqb x 91) eqn:Hx; [|discriminate].
  apply N.eqb_eq in Hx. subst x.
  intros H. apply star_lazy_first in H.
  destruct H as (t & s' & Es1 & Hdot & Hk & Hfirst). subst s1.
  destruct s' as [|y s2]; [discriminate|].
  unfold only in Hk. destruct (N.eqb y 93) eqn:Hy; [|discriminate].
  apply N.eqb_eq in Hy. subst y. inversion Hk; subst rest c.
  exists t. split; [exact Hmarker|]. split.
  - f_equal.
    transitivity (consumed ((91 :: t ++ [93]) ++ s2) s2); [|apply consumed_app].
    f_equal. simpl. now rewrite <- app_assoc.
  - apply Forall_forall. intros x Hin.
    rewrite Forall_forall in Hdot. specialize (Hdot x Hin).
    split.
    + intros ->. apply in_split in Hin. destruct Hin as (t1 & t2 & ->).
      specialize (Hfirst t1 (93 :: t2) eq_refl ltac:(discriminate)).
      simpl in Hfirst. discriminate.
    + unfold dot in Hdot. now apply negb_true_iff in Hdot.
Qed.

Lemma exec_from_here (r : regex) (s pre : jsstring) (m : match_array) :
  exec_from r pre s = Some m ->
  exists s0,
    rev pre ++ s = before m ++ s0
    /\ match_here r s0 = Some (after m, group1 m).
Proof.
  revert pre. induction s as [|x s IH]; intros pre; cbn [exec_from].
  - destruct (match_here r []) as [[s' c]|] eqn:H; [|discriminate].
    intros [= <-]; cbn [before group1 after]. exists []. auto.
  - destruct (match_here r (x :: s)) as [[s' c]|] eqn:H.
    + clear IH. intros [= <-]; cbn [before group1 after]. exists (x :: s). auto.
    + intros E. apply IH in E. destruct E as (s0 & E & Hm).
      exists s0. split; [|exact Hm]. rewrite <- E. simpl. now rewrite <- app_assoc.
Qed.

(** X10. The track list either operation reads is cut at the first
    closing bracket: what the pattern captures stands in the page right
    after the marker, starts with a bracket, ends with the first closing
    bracket after it, and holds no line terminator.  A track list with a
    bracket pair inside is therefore handed to [JSON.parse] incomplete. *)
Theorem X10_track_list_ends_at_first_bracket :
  forall (regex : regex) (data : jsstring) (m : match_array),
    regex = getVideoDetails_regex \/ regex = getSubtitles_regex ->
    exec regex data = Some m ->
    exists t,
      capture m = Str (91 :: t ++ [93])
      /\ occurs_at data (before m) (lit "`captionTracks`:" ++ 91 :: t ++ [93]) (after m)
      /\ Forall (fun x => x <> 93 /\ is_line_terminator x = false) t.
Proof.
  intros regex data m Hregex Hm.
  assert (E : regex = getVideoDetails_regex) by (destruct Hregex; subst; reflexivity).
  subst regex. clear Hregex.
  apply exec_from_here in Hm. destruct Hm as (s0 & Hdata & Hhere).
  apply track_list_here in Hhere. destruct Hhere as (t & -> & Hc & Ht).
  exists t. unfold capture. rewrite Hc. split; [reflexivity|]. split; [|exact Ht].
  unfold occurs_at. simpl in Hdata. rewrite Hdata. f_equal.
  rewrite <- !app_assoc. simpl. now rewrite <- app_assoc.
Qed.

(** X11. What [JSON.parse] makes of the captured track list is an array,
    or the text is refused with a SyntaxError: [find] is never called on
    anything else. *)
Theorem X11_track_list_parses_to_an_array :
  forall (regex : regex) (data : jsstring) (m : match_array),
    regex = getVideoDetails_regex \/ regex = getSubtitles_regex ->
    exec regex data = Some m ->
    (exists tracks, JSON_parse_value (capture m) = Ok (Arr tracks))
    \/ JSON_parse_value (capture m) = Throw SyntaxError.
Proof.
  intros regex data m Hregex Hm.
  assert (E : regex = getVideoDetails_regex) by (destruct Hregex; subst; reflexivity).
  subst regex. clear Hregex.
  destruct (track_list_text _ Hm) as [t Et]. rewrite Et. cbn [JSON_parse_value].
  destruct (JSON_parse_total (91 :: t)) as [[v Hv]|Hv]; [|now right].
  left. destruct (JSON_parse_array _ Hv) as [tracks ->]. eauto.
Qed.

(** ** What the selection returns *)

Lemma jseqb_eq (a b : jsstring) : jseqb a b = true -> a = b.
Proof.
  revert b. induction a as [|x a IH]; intros [|y b]; simpl; try discriminate; auto.
  intros H. apply andb_true_iff in H. destruct H as [Hx Ha].
  apply N.eqb_eq in Hx. subst y. f_equal. auto.
Qed.

Lemma starts_with_refl_app (p s : jsstring) : starts_with p (p ++ s) = true.
Proof. induction p as [|x p IH]; simpl; [reflexivity|]. now rewrite N.eqb_refl. Qed.

Lemma includes_here (s sub : jsstring) : starts_with sub s = true -> includes s sub = true.
Proof. intros H. destruct s; simpl; rewrite H; reflexivity. Qed.

Lemma includes_app (a b c : jsstring) : includes (a ++ b ++ c) b = true.
Proof.
  induction a as [|x a IH]; simpl.
  - apply includes_here, starts_with_refl_app.
  - rewrite IH. apply orb_true_r.
Qed.

Lemma wild_starts_with_plain (p s : jsstring) :
  Forall (fun x => x <> 46) p -> wild_starts_with p s = starts_with p s.
Proof.
  revert s. induction p as [|x p IH]; intros s Hp; simpl; [reflexivity|].
  destruct s as [|y s]; [reflexivity|].
  inversion Hp as [|? ? Hx Hrest]; subst.
  apply N.eqb_neq in Hx. rewrite Hx, (N.eqb_sym y x), IH; auto.
Qed.

(** Where the compiled pattern of the loose rule matches, the language
    stands in the text, when the language holds no full stop. *)
Lemma wild_includes_language (s lang : jsstring) :
  Forall (fun x => x <> 46) lang ->
  wild_includes s (46 :: lang) = true -> includes s lang = true.
Proof.
  intros Hlang. induction s as [|y s IH]; simpl; [discriminate|].
  intros H. apply orb_true_iff in H. destruct H as [H|H].
  - apply andb_true_iff in H. destruct H as [_ H].
    rewrite wild_starts_with_plain in H by assumption.
    rewrite (includes_here _ _ H). apply orb_true_r.
  - rewrite (IH H). apply orb_true_r.
Qed.

(** What [find] returns passed its test and is in the array. *)
Lemma find_result (test : value -> result bool) (l : list value) (t : value) :
  find test l = Ok t -> t = Undefined \/ (In t l /\ test t = Ok true).
Proof.
  induction l as [|x l IH]; simpl; intros H.
  - inversion H. now left.
  - destruct (test x) as [[|]|] eqn:Hx; cbn [bind] in H; try discriminate.
    + inversion H; subst. right. auto.
    + destruct (IH H) as [->|[Hin Ht]]; auto.
Qed.

Lemma exact_rule_passed (id : jsstring) (t : value) :
  (vssId <- get t (lit "vssId") ;; Ok (strict_equals_string vssId id)) = Ok true ->
  exists props, t = Obj props /\ lookup (lit "vssId") props = Some (Str id).
Proof.
  destruct t; simpl; try discriminate.
  destruct (lookup (lit "vssId") props) as [[| | | |s| |]|] eqn:E; simpl; try discriminate.
  intros H. assert (Hs : jseqb s id = true) by congruence.
  apply jseqb_eq in Hs. subst s. eauto.
Qed.

Lemma loose_rule_passed (lang : jsstring) (t : value) :
  loose_rule lang t = Ok true ->
  exists props x s, t = Obj props /\ lookup (lit "vssId") props = Some (Str (x :: s)).
Proof.
  unfold loose_rule. destruct t; simpl; try discriminate.
  destruct (lookup (lit "vssId") props) as [[| |b|k e|[|x s]|l|o]|] eqn:E;
    simpl; try discriminate.
  - destruct b; simpl; discriminate.
  - destruct (negb (rounds_to_zero k e)); simpl; discriminate.
  - eauto.
Qed.

(** What either copy of the selection returns. *)
Lemma selection_result (tracks : list value) (lang : jsstring) (t : value) :
  getVideoDetails_subtitle tracks lang = Ok t ->
  t = Undefined
  \/ (In t tracks /\
      exists props s,
        t = Obj props /\ lookup (lit "vssId") props = Some (Str s)
        /\ (s = lit "." ++ lang \/ s = lit "a." ++ lang \/ loose_rule lang t = Ok true)).
Proof.
  unfold getVideoDetails_subtitle.
  destruct (find _ tracks) as [manual|] eqn:H1; [|discriminate]. cbn [bind].
  apply find_result in H1.
  destruct (truthy manual) eqn:T1.
  { intros H; inversion H; subst.
    destruct H1 as [->|[Hin Ht]]; [discriminate|]. right. split; [exact Hin|].
    apply exact_rule_passed in Ht. destruct Ht as (props & -> & Hid). eauto 7. }
  clear H1.
  destruct (find _ tracks) as [generated|] eqn:H2; [|discriminate]. cbn [bind].
  apply find_result in H2.
  destruct (truthy generated) eqn:T2.
  { intros H; inversion H; subst.
    destruct H2 as [->|[Hin Ht]]; [discriminate|]. right. split; [exact Hin|].
    apply exact_rule_passed in Ht. destruct Ht as (props & -> & Hid). eauto 7. }
  clear H2.
  intros H3. apply find_result in H3.
  destruct H3 as [->|[Hin Ht]]; [now left|]. right. split; [exact Hin|].
  change (loose_rule lang t = Ok true) in Ht.
  destruct (loose_rule_passed _ _ Ht) as (props & x & s & -> & Hid). eauto 8.
Qed.

(** X12. What the selection returns, when it is not [undefined], is one
    of the tracks of the list: an object whose [vssId] is a string, equal
    to the dot and the language, or to [a.] and the language, or passing
    the loose rule. *)
Theorem X12_selected_track_is_in_the_list :
  forall (select : list value -> jsstring -> result value)
         (tracks : list value) (lang : jsstring) (t : value),
    select = getVideoDetails_subtitle \/ select = getSubtitles_subtitle ->
    select tracks lang = Ok t ->
    t = Undefined
    \/ (In t tracks /\
        exists props s,
          t = Obj props /\ lookup (lit "vssId") props = Some (Str s)
          /\ (s = lit "." ++ lang \/ s = lit "a." ++ lang \/ loose_rule lang t = Ok true)).
Proof.
  intros select tracks lang t Hselect.
  assert (E : select = getVideoDetails_subtitle) by (destruct Hselect; subst; reflexivity).
  subst select. apply selection_result.
Qed.

(** X13. For a language code without pattern syntax and without a full
    stop, the identifier of the selected track contains the language code:
    no rule selects a track that does not name the language. *)
Theorem X13_selected_track_names_the_language :
  forall (select : list value -> jsstring -> result value)
         (tracks : list value) (lang : jsstring) (props : list (jsstring * value)),
    select = getVideoDetails_subtitle \/ select = getSubtitles_subtitle ->
    existsb is_syntax_character lang = false ->
    Forall (fun x => x <> 46) lang ->
    select tracks lang = Ok (Obj props) ->
    exists s, lookup (lit "vssId") props = Some (Str s) /\ includes s lang = true.
Proof.
  intros select tracks lang props Hselect Hplain Hdots H.
  assert (E0 : select = getVideoDetails_subtitle) by (destruct Hselect; subst; reflexivity).
  subst select. clear Hselect.
  destruct (selection_result _ _ H) as [E|[_ Hs]]; [discriminate|].
  destruct Hs as (props' & s & E & Hid & Hrule). inversion E; subst props'.
  exists s. split; [exact Hid|].
  destruct Hrule as [->|[->|Hloose]].
  - pose proof (includes_app (lit ".") lang []) as I.
    rewrite app_nil_r in I. exact I.
  - pose proof (includes_app (lit "a.") lang []) as I.
    rewrite app_nil_r in I. exact I.
  - destruct (loose_rule_passed _ _ Hloose) as (p & x & s' & E' & Hid').
    inversion E'; subst p. rewrite Hid in Hid'. inversion Hid'; subst s.
    rewrite (loose_rule_test lang props Hplain Hid) in Hloose.
    inversion Hloose as [Hw]. rewrite Hw.
    now apply wild_includes_language.
Qed.

Lemma find_total (test : value -> result bool) (l : list value) :
  Forall (fun x => exists b, test x = Ok b) l -> exists t, find test l = Ok t.
Proof.
  induction l as [|x l IH]; simpl; intros H; [eauto|].
  inversion H as [|? ? [b Hb] Hrest]; subst. rewrite Hb. cbn [bind].
  destruct b; eauto.
Qed.

Lemma loose_rule_safe (lang : jsstring) (track : value) :
  existsb is_syntax_character lang = false ->
  selection_safe track = true ->
  exists b, loose_rule lang track = Ok b.
Proof.
  intros Hplain. unfold selection_safe, loose_rule.
  destruct track as [| |b|k e|s|l|props]; simpl; try discriminate; eauto.
  destruct (lookup (lit "vssId") props) as [[| |b|k e|[|x s]|l|o]|] eqn:E;
    simpl; try discriminate; eauto.
  - destruct b; simpl; try discriminate; eauto.
  - destruct (rounds_to_zero k e); simpl; try discriminate; eauto.
  - intros _. unfold RegExp.
    change (lit "." ++ lang) with (46 :: lang). cbn [existsb].
    replace (is_syntax_character 46) with false by reflexivity.
    rewrite Hplain. simpl. eauto.
Qed.

(** X14. The selection returns, a track or [undefined], for every list
    of tracks that are not [null] and whose [vssId] is a string or falsy,
    when the language code holds no pattern syntax.  A [null] in front of
    the list makes it throw a TypeError whatever follows. *)
Theorem X14_selection_returns_on_safe_tracks :
  forall (select : list value -> jsstring -> result value),
    select = getVideoDetails_subtitle \/ select = getSubtitles_subtitle ->
    (forall (tracks : list value) (lang : jsstring),
        existsb is_syntax_character lang = false ->
        Forall (fun x => selection_safe x = true) tracks ->
        exists t, select tracks lang = Ok t)
    /\ (forall (tracks : list value) (lang : jsstring),
           select (Null :: tracks) lang = Throw TypeError).
Proof.
  intros select Hselect.
  assert (E : select = getVideoDetails_subtitle) by (destruct Hselect; subst; reflexivity).
  subst select. clear Hselect. split; [|reflexivity].
  intros tracks lang Hplain Hsafe. unfold getVideoDetails_subtitle.
  assert (Hexact : forall id,
             Forall (fun x => exists b,
                         (vssId <- get x (lit "vssId") ;;
                          Ok (strict_equals_string vssId id)) = Ok b) tracks).
  { intros id. eapply Forall_impl; [|exact Hsafe]. intros x Hx.
    unfold selection_safe in Hx. apply andb_true_iff in Hx. destruct Hx as [Hx _].
    rewrite (exact_rule_test id x Hx). eauto. }
  destruct (find_total _ (Hexact (lit "." ++ lang))) as [manual ->]. cbn [bind].
  destruct (truthy manual); [eauto|].
  destruct (find_total _ (Hexact (lit "a." ++ lang))) as [generated ->]. cbn [bind].
  destruct (truthy generated); [eauto|].
  apply find_total. eapply Forall_impl; [|exact Hsafe].
  intros x Hx. now apply loose_rule_safe.
Qed.

(** ** The parser on well-formed documents *)

Lemma skipn_exact (p s : jsstring) : skipn (length p) (p ++ s) = s.
Proof. induction p; simpl; auto. Qed.

Lemma replace_string_here (s pat repl : jsstring) :
  starts_with pat s = true ->
  replace_string s pat repl = repl ++ skipn (length pat) s.
Proof. intros H. destruct s; simpl; rewrite H; reflexivity. Qed.

Lemma replace_string_skip (x : code_unit) (s pat repl : jsstring) :
  starts_with pat (x :: s) = false ->
  replace_string (x :: s) pat repl = x :: replace_string s pat repl.
Proof. intros H. cbn [replace_string]. rewrite H. reflexivity. Qed.

(** No text that starts with an opening angle bracket starts at a unit
    that is none. *)
Lemma starts_with_other (c x : code_unit) (p s : jsstring) :
  x <> c -> starts_with (c :: p) (x :: s) = false.
Proof. intros H. simpl. apply N.eqb_neq in H. rewrite N.eqb_sym, H. reflexivity. Qed.

Lemma replace_string_plain (c : code_unit) (p u r repl : jsstring) :
  Forall (fun x => x <> c) u ->
  replace_string (u ++ r) (c :: p) repl = u ++ replace_string r (c :: p) repl.
Proof.
  induction u as [|x u IH]; intros H; [reflexivity|].
  inversion H; subst. simpl app.
  rewrite replace_string_skip by now apply starts_with_other.
  f_equal. auto.
Qed.

Lemma split_from_plain (c : code_unit) (p u r cur : jsstring) :
  Forall (fun x => x <> c) u ->
  split_from (c :: p) (u ++ r) 0 cur = split_from (c :: p) r 0 (rev u ++ cur).
Proof.
  revert cur. induction u as [|x u IH]; intros cur H; [reflexivity|].
  inversion H; subst. simpl app. cbn [split_from].
  rewrite starts_with_other by assumption.
  rewrite IH by assumption. simpl. now rewrite <- app_assoc.
Qed.

Lemma numeric_units (s : jsstring) :
  numeric_text (Str s) = true ->
  s <> [] /\ Forall (fun x => (digit x || N.eqb x 46) = true) s.
Proof.
  destruct s as [|x s]; [discriminate|]. cbn [numeric_text].
  intros H. split; [discriminate|]. apply Forall_forall.
  rewrite forallb_forall in H. exact H.
Qed.

Lemma numeric_unit_facts (x : code_unit) :
  (digit x || N.eqb x 46) = true ->
  x <> 60 /\ x <> 34 /\ x <> 100 /\ x <> 115 /\ x <> 62 /\ dot x = true.
Proof.
  intros H. apply orb_true_iff in H. unfold digit in H.
  assert (R : 46 <= x <= 57).
  { destruct H as [H|H].
    - apply andb_true_iff in H. destruct H as [H1 H2].
      apply N.leb_le in H1, H2. lia.
    - apply N.eqb_eq in H. lia. }
  repeat split; try lia.
  unfold dot, is_line_terminator.
  assert (E : forall n, n < 46 \/ 57 < n -> N.eqb x n = false)
    by (intros n Hn; apply N.eqb_neq; lia).
  rewrite !E by lia. reflexivity.
Qed.

(** An open segment after its first unit, the opening angle bracket. *)
Lemma open_segment_shape (g : segment) :
  splittable g ->
  exists tail,
    open_segment g = 60 :: 116 :: tail
    /\ Forall (fun x => x <> 60) (116 :: tail).
Proof.
  intros (Hs & Hd & Hb).
  apply numeric_units in Hs, Hd. destruct Hs as [_ Hs]. destruct Hd as [_ Hd].
  exists (lit "ext start=`" ++ segment_start g ++ lit "` dur=`" ++ segment_dur g
          ++ lit "`>" ++ segment_body g).
  split; [reflexivity|].
  change (116 :: lit "ext start=`" ++ segment_start g ++ lit "` dur=`" ++ segment_dur g
          ++ lit "`>" ++ segment_body g)
    with (lit "text start=`" ++ segment_start g ++ lit "` dur=`" ++ segment_dur g
          ++ lit "`>" ++ segment_body g).
  rewrite !Forall_app. repeat split.
  - repeat constructor; discriminate.
  - eapply Forall_impl; [|exact Hs]. intros x Hx. now apply numeric_unit_facts in Hx.
  - repeat constructor; discriminate.
  - eapply Forall_impl; [|exact Hd]. intros x Hx. now apply numeric_unit_facts in Hx.
  - repeat constructor; discriminate.
  - exact Hb.
Qed.

Lemma rendered_segment (g : segment) (tail r : jsstring) :
  open_segment g = 60 :: 116 :: tail ->
  render_segment g ++ r = 60 :: ((116 :: tail) ++ (lit "</text>" ++ r)).
Proof.
  intros Eo. unfold render_segment. rewrite Eo, <- app_assoc. reflexivity.
Qed.

Lemma replace_closing_run (u r : jsstring) :
  Forall (fun x => x <> 60) u ->
  replace_string (u ++ r) (lit "</transcript>") []
  = u ++ replace_string r (lit "</transcript>") [].
Proof. exact (@replace_string_plain 60 (lit "/transcript>") u r []). Qed.

Lemma replace_closing_text (r : jsstring) :
  replace_string (lit "</text>" ++ r) (lit "</transcript>") []
  = lit "</text>" ++ replace_string r (lit "</transcript>") [].
Proof.
  reflexivity.
Qed.

Lemma replace_closing_segment (g : segment) (r : jsstring) :
  splittable g ->
  replace_string (render_segment g ++ r) (lit "</transcript>") []
  = render_segment g ++ replace_string r (lit "</transcript>") [].
Proof.
  intros Hg. destruct (open_segment_shape Hg) as (tail & Eo & Ht).
  rewrite (@rendered_segment g tail r Eo).
  rewrite (@rendered_segment g tail (replace_string r (lit "</transcript>") []) Eo).
  rewrite replace_string_skip by reflexivity. f_equal.
  rewrite replace_closing_run by exact Ht.
  now rewrite replace_closing_text.
Qed.

Lemma replace_closing_segments (segments : list segment) :
  Forall splittable segments ->
  replace_string (concat (map render_segment segments) ++ lit "</transcript>")
                 (lit "</transcript>") []
  = concat (map render_segment segments).
Proof.
  induction segments as [|g l IH]; intros H.
  - reflexivity.
  - inversion H; subst. cbn [map concat]. rewrite <- app_assoc.
    rewrite replace_closing_segment by assumption. f_equal. auto.
Qed.

Lemma split_text_run (u r cur : jsstring) :
  Forall (fun x => x <> 60) u ->
  split_from (lit "</text>") (u ++ r) 0 cur
  = split_from (lit "</text>") r 0 (rev u ++ cur).
Proof. exact (@split_from_plain 60 (lit "/text>") u r cur). Qed.

Lemma split_text_segment (g : segment) (r : jsstring) :
  splittable g ->
  split_from (lit "</text>") (render_segment g ++ r) 0 []
  = open_segment g :: split_from (lit "</text>") r 0 [].
Proof.
  intros Hg. destruct (open_segment_shape Hg) as (tail & Eo & Ht).
  rewrite (@rendered_segment g tail r Eo), Eo.
  cbn [split_from].
  replace (starts_with (lit "</text>") (60 :: (116 :: tail) ++ lit "</text>" ++ r))
    with false by reflexivity.
  rewrite split_text_run by exact Ht.
  change (lit "</text>" ++ r) with (60 :: 47 :: 116 :: 101 :: 120 :: 116 :: 62 :: r).
  cbn [split_from].
  replace (starts_with (lit "</text>") (60 :: 47 :: 116 :: 101 :: 120 :: 116 :: 62 :: r))
    with true by (symmetry; apply (starts_with_refl_app (lit "</text>") r)).
  f_equal.
  rewrite rev_app_distr, rev_involutive. reflexivity.
Qed.

Lemma split_text_segments (segments : list segment) :
  Forall splittable segments ->
  split (concat (map render_segment segments)) (lit "</text>")
  = map open_segment segments ++ [[]].
Proof.
  intros H. change (split_from (lit "</text>") (concat (map render_segment segments)) 0 []
                    = map open_segment segments ++ [[]]).
  induction segments as [|g l IH].
  - reflexivity.
  - inversion H; subst. cbn [map concat].
    rewrite split_text_segment by assumption. simpl. f_equal. auto.
Qed.

(** The fragments of a rendered document are its open segments, and
    one empty fragment after the last closing tag. *)
Lemma fragments_render (segments : list segment) :
  Forall splittable segments ->
  fragments (render segments) = map open_segment segments ++ [[]].
Proof.
  intros H.
  assert (E : replace_string (render segments)
                (lit "<?xml version=`1.0` encoding=`utf-8` ?><transcript>") []
              = concat (map render_segment segments) ++ lit "</transcript>").
  { unfold render. rewrite replace_string_here by apply starts_with_refl_app.
    now rewrite skipn_exact. }
  unfold fragments. rewrite E.
  rewrite replace_closing_segments by assumption.
  now apply split_text_segments.
Qed.

(** A greedy repetition followed by a unit it cannot take stops there,
    when what follows matches. *)
Lemma star_greedy_longest (A : Type) (p : code_unit -> bool) (t r : jsstring)
      (y : code_unit) (k : jsstring -> option A) (a : A) :
  Forall (fun x => p x = true) t -> p y = false -> k (y :: r) = Some a ->
  star_greedy p (t ++ y :: r) k = Some a.
Proof.
  intros Ht Hy Hk. induction t as [|x t IH]; simpl.
  - now rewrite Hy.
  - inversion Ht; subst. replace (p x) with true by auto. now rewrite IH.
Qed.

(** A greedy repetition fails when what follows matches at no point of
    the text. *)
Lemma star_greedy_none (A : Type) (p : code_unit -> bool) (b : jsstring)
      (k : jsstring -> option A) :
  (forall t1 t2, b = t1 ++ t2 -> k t2 = None) -> star_greedy p b k = None.
Proof.
  induction b as [|x b IH]; intros H; simpl.
  - apply (H [] []). reflexivity.
  - rewrite IH.
    + destruct (p x); apply (H [] (x :: b)); reflexivity.
    + intros t1 t2 E. apply (H (x :: t1) t2). now rewrite E.
Qed.

(** It gives back what it took until what follows matches: with no match
    inside [b], it ends in front of [y]. *)
Lemma star_greedy_last (A : Type) (p : code_unit -> bool) (u b : jsstring)
      (y : code_unit) (k : jsstring -> option A) (a : A) :
  Forall (fun x => p x = true) u -> p y = true ->
  (forall t1 t2, b = t1 ++ t2 -> k t2 = None) ->
  k (y :: b) = Some a ->
  star_greedy p (u ++ y :: b) k = Some a.
Proof.
  intros Hu Hy Hb Hk. induction u as [|x u IH]; simpl.
  - rewrite Hy, (@star_greedy_none _ p b k Hb). exact Hk.
  - inversion Hu; subst. replace (p x) with true by auto. now rewrite IH.
Qed.

Lemma exec_from_skip (r : regex) (c : code_unit) (u s pre : jsstring) :
  (forall x t, x <> c -> match_here r (x :: t) = None) ->
  Forall (fun x => x <> c) u ->
  exec_from r pre (u ++ s) = exec_from r (rev u ++ pre) s.
Proof.
  intros Hr. revert pre. induction u as [|x u IH]; intros pre Hu; [reflexivity|].
  inversion Hu; subst. cbn [app exec_from]. rewrite Hr by assumption.
  rewrite IH by assumption. simpl. now rewrite <- app_assoc.
Qed.

Lemma match_here_literal_other (c x : code_unit) (p t : jsstring) (r : regex) :
  x <> c -> match_here (Seq (chars (c :: p)) r) (x :: t) = None.
Proof.
  intros H. unfold match_here. cbn [run chars]. unfold only.
  apply N.eqb_neq in H. now rewrite H.
Qed.

(** An attribute pattern finds the attribute written [name], the number
    and a double quote, when the first unit of [name] does not occur
    before: it captures the number. *)
Lemma attribute_found (c : code_unit) (p u number rest : jsstring) :
  Forall (fun x => x <> c) u ->
  numeric_text (Str number) = true ->
  exists m,
    exec (Seq (chars (c :: p))
              (Seq (Group (Plus (fun x => digit x || N.eqb x 46))) (Class (only 34))))
         (u ++ (c :: p) ++ number ++ 34 :: rest) = Some m
    /\ capture m = Str number.
Proof.
  intros Hu Hn. unfold exec.
  rewrite (@exec_from_skip _ c) by (auto using match_here_literal_other).
  destruct number as [|x number]; [discriminate|].
  destruct (@numeric_units _ Hn) as [_ Hall]. inversion Hall as [|? ? Hx Hrest]; subst.
  cbn [app exec_from].
  assert (M : match_here
                (Seq (chars (c :: p))
                     (Seq (Group (Plus (fun x => digit x || N.eqb x 46)))
                          (Class (only 34))))
                (c :: p ++ x :: number ++ 34 :: rest)
              = Some (rest, Some (x :: number))).
  { unfold match_here, Plus. cbn [run].
    rewrite run_chars.
    change (c :: p ++ x :: number ++ 34 :: rest)
      with ((c :: p) ++ x :: number ++ 34 :: rest).
    rewrite starts_with_refl_app, skipn_exact. cbn [run]. rewrite Hx.
    erewrite star_greedy_longest; [reflexivity|exact Hrest|reflexivity|].
    cbn [run]. unfold only at 1. rewrite N.eqb_refl.
    do 3 f_equal.
    change (x :: number ++ 34 :: rest) with ((x :: number) ++ 34 :: rest).
    apply consumed_app. }
  rewrite M. eexists. split; reflexivity.
Qed.

Lemma well_formed_splittable (g : segment) : well_formed g -> splittable g.
Proof.
  intros (Hs & Hd & Hb). repeat split; try assumption.
  eapply Forall_impl; [|exact Hb]. intros x [H1 _]. exact H1.
Qed.

Lemma one_line_splittable (g : segment) : one_line g -> splittable g.
Proof.
  intros (Hs & Hd & Hb). repeat split; try assumption.
  eapply Forall_impl; [|exact Hb]. intros x [H1 _]. exact H1.
Qed.

Lemma start_found (g : segment) :
  numeric_text (Str (segment_start g)) = true ->
  exists m, exec getVideoDetails_startRegex (open_segment g) = Some m
            /\ capture m = Str (segment_start g).
Proof.
  intros Hs.
  apply (@attribute_found 115 (lit "tart=`") (lit "<text ") (segment_start g)
           (lit " dur=`" ++ segment_dur g ++ lit "`>" ++ segment_body g)); [|exact Hs].
  repeat constructor; discriminate.
Qed.

Lemma dur_found (g : segment) :
  numeric_text (Str (segment_start g)) = true ->
  numeric_text (Str (segment_dur g)) = true ->
  exists m, exec getVideoDetails_durRegex (open_segment g) = Some m
            /\ capture m = Str (segment_dur g).
Proof.
  intros Hs Hd.
  change (open_segment g)
    with (lit "<text start=`" ++ segment_start g ++ lit "` "
          ++ lit "dur=`" ++ segment_dur g ++ 34 :: lit ">" ++ segment_body g).
  rewrite 2 app_assoc.
  apply (@attribute_found 100 (lit "ur=`")); [|exact Hd].
  rewrite !Forall_app. repeat split.
  - repeat constructor; discriminate.
  - apply numeric_units in Hs. destruct Hs as [_ Hs].
    eapply Forall_impl; [|exact Hs]. intros x Hx. now apply numeric_unit_facts in Hx.
  - repeat constructor; discriminate.
Qed.

(** The first pattern of the clean-up is greedy: on one line it takes
    everything up to the last closing angle bracket. *)
Lemma text_tag_greedy (u b : jsstring) :
  Forall (fun x => dot x = true) u ->
  Forall (fun x => x <> 62) b ->
  replace_first (lit "<text " ++ u ++ 62 :: b)
    (Seq (chars (lit "<text")) (Seq (Plus dot) (Class (only 62)))) []
  = b.
Proof.
  intros Hu Hb.
  assert (M : match_here
                (Seq (chars (lit "<text")) (Seq (Plus dot) (Class (only 62))))
                (lit "<text " ++ u ++ 62 :: b)
              = Some (b, None)).
  { change (lit "<text " ++ u ++ 62 :: b) with (lit "<text" ++ 32 :: u ++ 62 :: b).
    unfold match_here, Plus. cbn [run]. rewrite run_chars.
    rewrite starts_with_refl_app, skipn_exact. cbn [run].
    change (dot 32) with true. cbv iota.
    apply star_greedy_last.
    - exact Hu.
    - reflexivity.
    - intros t1 t2 E. destruct t2 as [|x t2]; [reflexivity|].
      cbn [run]. rewrite E in Hb. apply Forall_app in Hb. destruct Hb as [_ Hb].
      inversion Hb as [|? ? Hx _]; subst.
      unfold only. apply N.eqb_neq in Hx. now rewrite Hx.
    - reflexivity. }
  unfold replace_first, exec.
  change (lit "<text " ++ u ++ 62 :: b) with (60 :: lit "text " ++ u ++ 62 :: b) in *.
  cbn [exec_from]. rewrite M. reflexivity.
Qed.

Lemma attributes_on_one_line (g : segment) :
  numeric_text (Str (segment_start g)) = true ->
  numeric_text (Str (segment_dur g)) = true ->
  Forall (fun x => dot x = true)
         (lit "start=`" ++ segment_start g ++ lit "` dur=`" ++ segment_dur g ++ lit "`").
Proof.
  intros Hs Hd.
  apply numeric_units in Hs, Hd. destruct Hs as [_ Hs]. destruct Hd as [_ Hd].
  rewrite !Forall_app. repeat split.
  - repeat constructor.
  - eapply Forall_impl; [|exact Hs]. intros x Hx. now apply numeric_unit_facts in Hx.
  - repeat constructor.
  - eapply Forall_impl; [|exact Hd]. intros x Hx. now apply numeric_unit_facts in Hx.
  - repeat constructor.
Qed.

Lemma open_segment_parts (g : segment) :
  open_segment g
  = lit "<text " ++ (lit "start=`" ++ segment_start g ++ lit "` dur=`"
                     ++ segment_dur g ++ lit "`") ++ 62 :: segment_body g.
Proof. unfold open_segment. rewrite <- !app_assoc. reflexivity. Qed.

Lemma opening_tag_removed (g : segment) :
  well_formed g ->
  replace_first (open_segment g)
    (Seq (chars (lit "<text")) (Seq (Plus dot) (Class (only 62)))) []
  = segment_body g.
Proof.
  intros (Hs & Hd & Hb). rewrite open_segment_parts.
  apply text_tag_greedy.
  - now apply attributes_on_one_line.
  - eapply Forall_impl; [|exact Hb]. intros x (_ & H1 & _). exact H1.
Qed.

Lemma after_last_bracket_cases (b : jsstring) :
  (Forall (fun x => x <> 62) b /\ after_last_bracket b = b)
  \/ (exists b1 b2, b = b1 ++ 62 :: b2 /\ Forall (fun x => x <> 62) b2
                    /\ after_last_bracket b = b2).
Proof.
  induction b as [|x t IH]; [left; split; [constructor|reflexivity]|].
  cbn [after_last_bracket]. destruct IH as [[Hn E]|(b1 & b2 & E & Hn & Ea)].
  - assert (F : existsb (fun y => N.eqb y 62) t = false).
    { clear E. induction Hn as [|y l Hy _ IH]; [reflexivity|].
      simpl. apply N.eqb_neq in Hy. now rewrite Hy. }
    rewrite F. destruct (N.eqb x 62) eqn:Ex.
    + right. exists [], t. apply N.eqb_eq in Ex. subst x.
      split; [reflexivity|]. split; [exact Hn|reflexivity].
    + left. split; [|reflexivity]. constructor; [now apply N.eqb_neq|exact Hn].
  - assert (F : existsb (fun y => N.eqb y 62) t = true).
    { apply existsb_exists. exists 62. split; [|reflexivity].
      rewrite E. apply in_or_app. right. now left. }
    rewrite F. right. exists (x :: b1), b2.
    split; [now rewrite E|]. split; [exact Hn|exact Ea].
Qed.

Lemma opening_tag_greedy (g : segment) :
  one_line g ->
  replace_first (open_segment g)
    (Seq (chars (lit "<text")) (Seq (Plus dot) (Class (only 62)))) []
  = after_last_bracket (segment_body g)
  /\ Forall (fun x => x <> 60 /\ x <> 38) (after_last_bracket (segment_body g)).
Proof.
  intros (Hs & Hd & Hb). rewrite open_segment_parts.
  destruct (after_last_bracket_cases (segment_body g))
    as [[Hn E]|(b1 & b2 & E & Hn & Ea)].
  - rewrite E. split.
    + apply text_tag_greedy; [now apply attributes_on_one_line|exact Hn].
    + eapply Forall_impl; [|exact Hb]. intros x (H1 & H2 & _). now split.
  - rewrite Ea, E. rewrite E in Hb. apply Forall_app in Hb. destruct Hb as [H1 H2].
    pose proof (Forall_inv_tail H2) as H3. split.
    + replace ((lit "start=`" ++ segment_start g ++ lit "` dur=`" ++ segment_dur g ++ lit "`")
               ++ 62 :: b1 ++ 62 :: b2)
        with (((lit "start=`" ++ segment_start g ++ lit "` dur=`" ++ segment_dur g ++ lit "`")
               ++ 62 :: b1) ++ 62 :: b2)
        by (rewrite <- app_assoc; reflexivity).
      apply text_tag_greedy; [|exact Hn].
      apply Forall_app. split; [now apply attributes_on_one_line|].
      constructor; [reflexivity|].
      eapply Forall_impl; [|exact H1]. intros x (_ & _ & Hx).
      unfold dot. now rewrite Hx.
    + eapply Forall_impl; [|exact H3]. intros x (Ha & Hc & _). now split.
Qed.

(** A global replacement whose pattern starts with a unit the text does
    not hold leaves the text as it is. *)
Lemma replace_global_plain (r : regex) (c : code_unit) (repl s : jsstring) :
  (forall x t, x <> c -> match_here r (x :: t) = None) ->
  match_here r [] = None ->
  Forall (fun x => x <> c) s ->
  replace_all s r repl = s.
Proof.
  intros Hr Hnil Hs. unfold replace_all. induction Hs as [|x s Hx Hs IH].
  - cbn [replace_global]. now rewrite Hnil.
  - cbn [replace_global]. rewrite Hr by assumption. now rewrite IH.
Qed.

Lemma match_here_unit_other (c x : code_unit) (t : jsstring) (r : regex) :
  x <> c -> match_here (Seq (Class (only c)) r) (x :: t) = None.
Proof.
  intros H. unfold match_here. cbn [run]. unfold only.
  apply N.eqb_neq in H. now rewrite H.
Qed.

(** The two global replacements of the clean-up on a text with no
    ampersand and no opening angle bracket. *)
Lemma clean_up_plain (b : jsstring) :
  Forall (fun x => x <> 60 /\ x <> 38) b ->
  replace_all
    (replace_all b
       (Seq (Class (only 38))
            (Seq (Class (fold_case 97))
                 (Seq (Class (fold_case 109))
                      (Seq (Class (fold_case 112)) (Class (only 59))))))
       (lit "&"))
    (Seq (Class (only 60))
         (Seq (Opt (Class (only 47)))
              (Seq (Plus (except 62))
                   (Group (Alt (Class (only 62)) EndOfInput)))))
    []
  = b.
Proof.
  intros Hb.
  rewrite (@replace_global_plain (Seq (Class (only 38)) _) 38).
  - apply (@replace_global_plain _ 60).
    + intros x t H. now apply match_here_unit_other.
    + reflexivity.
    + eapply Forall_impl; [|exact Hb]. intros x [H1 _]. exact H1.
  - intros x t H. now apply match_here_unit_other.
  - reflexivity.
  - eapply Forall_impl; [|exact Hb]. intros x [_ H1]. exact H1.
Qed.

Lemma trim_start_keeps (s : jsstring) (x : code_unit) :
  In x s -> is_white_space x = false -> trim_start s <> [].
Proof.
  induction s as [|y s IH]; intros Hin Hx; [contradiction|].
  simpl. destruct (is_white_space y) eqn:Ey; [|discriminate].
  destruct Hin as [->|Hin]; [congruence|]. now apply IH.
Qed.

Lemma nonblank_head (x : code_unit) (t : jsstring) :
  is_white_space x = false -> nonblank (x :: t) = true.
Proof.
  intros Hx. unfold nonblank, trim. simpl trim_start at 2. rewrite Hx.
  assert (N : trim_start (rev (x :: t)) <> []).
  { apply trim_start_keeps with (x := x); [|exact Hx].
    apply in_rev. rewrite rev_involutive. now left. }
  destruct (trim_start (rev (x :: t))) as [|y l] eqn:R; [congruence|].
  simpl. destruct (rev l); reflexivity.
Qed.

Lemma open_segment_nonblank (g : segment) : nonblank (open_segment g) = true.
Proof. apply (@nonblank_head 60). reflexivity. Qed.

(** What the callback pushes for the open segment of a segment. *)
Lemma pushed_segment (he_decode striptags : jsstring -> jsstring) (g : segment) :
  well_formed g ->
  extractable (open_segment g) = true
  /\ pushed he_decode striptags (open_segment g) = line_of he_decode striptags g.
Proof.
  intros Hg.
  destruct (@start_found g) as (ms & Es & Cs); [apply Hg|].
  destruct (@dur_found g) as (md & Ed & Cd); [apply Hg|apply Hg|].
  unfold extractable, pushed, line_of. rewrite Es, Ed, Cs, Cd.
  split; [reflexivity|]. f_equal. do 2 f_equal.
  rewrite (opening_tag_removed Hg).
  destruct Hg as (_ & _ & Hb). apply clean_up_plain.
  eapply Forall_impl; [|exact Hb]. intros x (H1 & _ & H2). now split.
Qed.

Lemma pushed_one_line (he_decode striptags : jsstring -> jsstring) (g : segment) :
  one_line g ->
  extractable (open_segment g) = true
  /\ pushed he_decode striptags (open_segment g)
     = line_after_bracket he_decode striptags g.
Proof.
  intros Hg.
  destruct (@start_found g) as (ms & Es & Cs); [apply Hg|].
  destruct (@dur_found g) as (md & Ed & Cd); [apply Hg|apply Hg|].
  unfold extractable, pushed, line_after_bracket. rewrite Es, Ed, Cs, Cd.
  split; [reflexivity|]. f_equal. do 2 f_equal.
  destruct (opening_tag_greedy Hg) as [E Hb]. rewrite E.
  now apply clean_up_plain.
Qed.

Lemma filter_all (A : Type) (f : A -> bool) (l : list A) :
  Forall (fun x => f x = true) l -> filter f l = l.
Proof.
  induction 1 as [|x l Hx _ IH]; simpl; [reflexivity|]. now rewrite Hx, IH.
Qed.

(** The lines of a rendered document, when each open segment is
    extractable and [make] is what the callback pushes for it. *)
Lemma lines_of_render (he_decode striptags : jsstring -> jsstring)
      (make : segment -> Subtitle) (segments : list segment) :
  Forall splittable segments ->
  Forall (fun g => extractable (open_segment g) = true
                   /\ pushed he_decode striptags (open_segment g) = make g) segments ->
  getVideoDetails_lines he_decode striptags (render segments) = map make segments
  /\ getSubtitles_lines he_decode striptags (render segments) = map make segments.
Proof.
  intros Hsplit H.
  assert (E : getVideoDetails_lines he_decode striptags (render segments)
              = map make segments).
  { rewrite lines_map_filter, fragments_render by assumption.
    rewrite filter_app. cbn [filter nonblank]. rewrite app_nil_r.
    rewrite (@filter_all _ nonblank).
    2:{ apply Forall_map. apply Forall_forall. intros g _. apply open_segment_nonblank. }
    rewrite (@filter_all _ extractable).
    2:{ apply Forall_map. eapply Forall_impl; [|exact H]. intros g Hg. apply Hg. }
    rewrite map_map. apply map_ext_Forall. eapply Forall_impl; [|exact H].
    intros g Hg. apply Hg. }
  split; [exact E|]. rewrite <- E. symmetry. apply lines_same.
Qed.

(** X15. Both parsers read back a timed-text document: for segments
    whose two attributes are numbers and whose text holds no angle bracket
    and no ampersand, the lines of the rendered document are the segments
    in order, one line each, with the attributes as written and the text
    handed through [he.decode] and [striptags]. *)
Theorem X15_lines_read_back_rendered_segments :
  forall (he_decode striptags : jsstring -> jsstring) (segments : list segment),
    Forall well_formed segments ->
    getVideoDetails_lines he_decode striptags (render segments)
    = map (line_of he_decode striptags) segments
    /\ getSubtitles_lines he_decode striptags (render segments)
       = map (line_of he_decode striptags) segments.
Proof.
  intros he_decode striptags segments H. apply lines_of_render.
  - eapply Forall_impl; [|exact H]. apply well_formed_splittable.
  - eapply Forall_impl; [|exact H]. intros g Hg. now apply pushed_segment.
Qed.

(** X16. The pattern that removes the opening tag is greedy: for
    segments whose text holds no line terminator, no opening angle bracket
    and no ampersand, the text of a line is what follows the last closing
    angle bracket of the segment's text, so a caption with such a bracket
    loses everything up to it. *)
Theorem X16_text_before_a_closing_bracket_is_lost :
  forall (he_decode striptags : jsstring -> jsstring) (segments : list segment),
    Forall one_line segments ->
    getVideoDetails_lines he_decode striptags (render segments)
    = map (line_after_bracket he_decode striptags) segments
    /\ getSubtitles_lines he_decode striptags (render segments)
       = map (line_after_bracket he_decode striptags) segments.
Proof.
  intros he_decode striptags segments H. apply lines_of_render.
  - eapply Forall_impl; [|exact H]. apply one_line_splittable.
  - eapply Forall_impl; [|exact H]. intros g Hg. now apply pushed_one_line.
Qed.

(** ** The further properties, on the sample web *)

Lemma X1_witness :
  fetchThroughProxy no_agent (serve_through web) (lit "nowhere") (lit "http://proxy")
  = Throw (proxy_failure (lit "nowhere") (lit "http://proxy")).
Proof.
  destruct (fetchThroughProxy no_agent (serve_through web) (lit "nowhere")
              (lit "http://proxy")) as [response|e] eqn:E.
  - vm_compute in E. discriminate.
  - destruct (@X1_fetchThroughProxy_outcomes unit no_agent (serve_through web)
                (lit "nowhere") (lit "http://proxy")) as [_ H].
    destruct (H e E) as [Hagent| ->]; [discriminate|reflexivity].
Defined.

Lemma X3_witness :
  getSubtitles no_agent (serve_through web) (serve web) decode_xml_entities strip_all_tags
    {| videoID := lit "nowhere"; lang := None; proxyURL := Some (lit "http://proxy") |}
  = Throw (proxy_failure (watch_url (lit "nowhere")) (lit "http://proxy")).
Proof.
  destruct (@X3_page_request_failures unit no_agent (serve_through web) (serve web)
              decode_xml_entities strip_all_tags
              {| videoID := lit "nowhere"; lang := None;
                 proxyURL := Some (lit "http://proxy") |}) as (_ & _ & H).
  destruct (H eq_refl tt eq_refl) as [Hsubs _].
  - vm_compute. exact I.
  - exact Hsubs.
Defined.


Lemma X2_witness :
  getSubtitles no_agent (serve_through web) (serve web) decode_xml_entities strip_all_tags
    {| videoID := lit "english"; lang := None; proxyURL := Some (lit "http://proxy") |}
  = getSubtitles (fun _ : jsstring => Ok true)
      (fun (url : jsstring) (_ : bool) => serve web (Str url)) (serve web)
      decode_xml_entities strip_all_tags
      {| videoID := lit "english"; lang := None; proxyURL := Some (lit "http://proxy") |}.
Proof.
  apply (@X2_proxy_only_for_the_watch_page unit bool no_agent (serve_through web)
           (fun _ : jsstring => Ok true)
           (fun (url : jsstring) (_ : bool) => serve web (Str url))).
  intros _. vm_compute. reflexivity.
Defined.

Lemma X4_witness :
  getVideoDetails no_agent (serve_through web) (serve web)
    decode_xml_entities strip_all_tags (request "english")
  = getVideoDetails no_agent (serve_through web) (not_ok (serve web))
      decode_xml_entities strip_all_tags (request "english").
Proof.
  apply (@X4_direct_responses_count_by_their_text unit no_agent (serve_through web)
           (serve web) (not_ok (serve web))).
  intros input. unfold fetch_text, not_ok.
  destruct (serve web input); reflexivity.
Defined.



Lemma X8_witness :
  exists (x : code_unit) (t pre post : jsstring),
    x :: t = lit "A video"
    /\ occurs_at english_page pre
         (lit "<meta name=`title` content=`" ++ (x :: t) ++ lit "`>") post.
Proof.
  destruct (@X8_title_is_on_the_page unit no_agent (serve_through web) (serve web)
              decode_xml_entities strip_all_tags (request "english") english_page
              {| title := Str (lit "A video");
                 description := Str (lit "No description found");
                 subtitles := [hello_line] |})
    as (x & t & pre & post & Htitle & Hpage & _).
  - vm_compute. reflexivity.
  - vm_compute. reflexivity.
  - exists x, t, pre, post. split; [|exact Hpage].
    cbn [title] in Htitle. congruence.
Defined.

Lemma X9_witness :
  exists (y : code_unit) (d : jsstring),
    Str (lit "No description found") = Str (y :: d)
    /\ ((exists pre post,
            occurs_at english_page pre
              (lit "<meta name=`description` content=`" ++ (y :: d) ++ lit "`>") post)
        \/ (y :: d = lit "No description found"
            /\ forall m, exec getVideoDetails_descriptionRegex english_page = Some m ->
                         capture m = Str [])).
Proof.
  apply (@X9_description_is_never_empty unit no_agent (serve_through web) (serve web)
           decode_xml_entities strip_all_tags (request "english") english_page
           {| title := Str (lit "A video");
              description := Str (lit "No description found");
              subtitles := [hello_line] |}).
  - vm_compute. reflexivity.
  - vm_compute. reflexivity.
Defined.

Lemma X10_witness :
  exists m t,
    exec getVideoDetails_regex english_page = Some m
    /\ capture m = Str (91 :: t ++ [93])
    /\ occurs_at english_page (before m) (lit "`captionTracks`:" ++ 91 :: t ++ [93]) (after m)
    /\ Forall (fun x => x <> 93 /\ is_line_terminator x = false) t.
Proof.
  destruct (exec getVideoDetails_regex english_page) as [m|] eqn:E.
  - destruct (@X10_track_list_ends_at_first_bracket getVideoDetails_regex english_page m
                (or_introl eq_refl) E) as (t & H).
    exists m, t. split; [reflexivity|exact H].
  - vm_compute in E. discriminate.
Defined.

Lemma X11_witness :
  exists m,
    exec getSubtitles_regex english_page = Some m
    /\ ((exists tracks, JSON_parse_value (capture m) = Ok (Arr tracks))
        \/ JSON_parse_value (capture m) = Throw SyntaxError).
Proof.
  destruct (exec getSubtitles_regex english_page) as [m|] eqn:E.
  - exists m. split; [reflexivity|].
    exact (@X11_track_list_parses_to_an_array getSubtitles_regex english_page m
             (or_intror eq_refl) E).
  - vm_compute in E. discriminate.
Defined.

Lemma X12_witness :
  track "u3" ".en" = Undefined
  \/ (In (track "u3" ".en") english_tracks /\
      exists props s,
        track "u3" ".en" = Obj props /\ lookup (lit "vssId") props = Some (Str s)
        /\ (s = lit "." ++ lit "en" \/ s = lit "a." ++ lit "en"
            \/ loose_rule (lit "en") (track "u3" ".en") = Ok true)).
Proof.
  apply (@X12_selected_track_is_in_the_list getVideoDetails_subtitle english_tracks
           (lit "en") (track "u3" ".en")).
  - left. reflexivity.
  - vm_compute. reflexivity.
Defined.

Lemma X13_witness :
  exists s,
    lookup (lit "vssId") [(lit "baseUrl", Str (lit "u4")); (lit "vssId", Str (lit "xen"))]
    = Some (Str s)
    /\ includes s (lit "en") = true.
Proof.
  apply (@X13_selected_track_names_the_language getSubtitles_subtitle
           [track "u4" "xen"] (lit "en")).
  - right. reflexivity.
  - reflexivity.
  - repeat constructor; discriminate.
  - vm_compute. reflexivity.
Defined.

Lemma X14_witness :
  (exists t, getVideoDetails_subtitle english_tracks (lit "en") = Ok t)
  /\ getVideoDetails_subtitle (Null :: english_tracks) (lit "en") = Throw TypeError.
Proof.
  destruct (@X14_selection_returns_on_safe_tracks getVideoDetails_subtitle
              (or_introl eq_refl)) as [Hsafe Hnull].
  split; [|apply Hnull]. apply Hsafe.
  - reflexivity.
  - repeat constructor.
Defined.

Lemma X15_witness :
  getVideoDetails_lines decode_xml_entities strip_all_tags
    (render [ {| segment_start := lit "0.5"; segment_dur := lit "2.3";
                 segment_body := lit "Hello world" |};
              {| segment_start := lit "3"; segment_dur := lit "1.25";
                 segment_body := lit "again" |} ])
  = [ {| start := Str (lit "0.5"); dur := Str (lit "2.3"); text := lit "Hello world" |};
      {| start := Str (lit "3"); dur := Str (lit "1.25"); text := lit "again" |} ].
Proof.
  destruct (@X15_lines_read_back_rendered_segments decode_xml_entities strip_all_tags
              [ {| segment_start := lit "0.5"; segment_dur := lit "2.3";
                   segment_body := lit "Hello world" |};
                {| segment_start := lit "3"; segment_dur := lit "1.25";
                   segment_body := lit "again" |} ]) as [H _].
  - repeat (constructor;
            [repeat split; try reflexivity;
             repeat (constructor; [repeat split; discriminate|]); constructor|]).
    constructor.
  - rewrite H. vm_compute. reflexivity.
Defined.

Lemma X16_witness :
  getSubtitles_lines decode_xml_entities strip_all_tags
    (render [ {| segment_start := lit "1"; segment_dur := lit "2";
                 segment_body := lit "a > b" |} ])
  = [ {| start := Str (lit "1"); dur := Str (lit "2"); text := lit " b" |} ].
Proof.
  destruct (@X16_text_before_a_closing_bracket_is_lost decode_xml_entities strip_all_tags
              [ {| segment_start := lit "1"; segment_dur := lit "2";
                   segment_body := lit "a > b" |} ]) as [_ H].
  - repeat (constructor;
            [repeat split; try reflexivity;
             repeat (constructor; [repeat split; (discriminate || reflexivity)|]); constructor|]).
    constructor.
  - rewrite H. vm_compute. reflexivity.
Defined.
